(** * Organization members page of the shortener dashboard

    A shallow embedding of [OrganizationMembersPage], the page the
    authenticated layout routes at [/members]: the local view state held by
    the React hooks, the event handlers, the invite form schema and the row
    rendering, followed by the properties of the page that are established
    about them.

    Conventions of the embedding.
    - Every [useState] cell is a field of [PageState]; a setter [setX v]
      replaces the field in the pending state.
    - A handler is a function of the state captured by the render that
      created it (its closure, written [s]) and runs in the monad [M], which
      threads the pending view state, the log of requests issued to the API
      client and the toasts shown.  Reads of a state variable inside a
      handler go to the closure, never to the pending state, as in React.
    - An [await]ed request is answered by the backend before the handler
      goes on; handlers are not interleaved with each other. *)

From stdpp Require Import base option list gmap strings pretty.
From Stdlib Require Import ZArith.

Local Open Scope string_scope.
Local Open Scope list_scope.
Local Open Scope Z_scope.

(** ** Data model *)

(** Modelled from the spec: the enumeration [MemberRole] of [model/auth],
    which is not part of the sources at hand.  Its six members are the keys
    of [ROLE_LABELS] and the roles the data model of the specification
    lists. *)
Inductive MemberRole :=
| ORGANIZATION_OWNER
| ORGANIZATION_ADMIN
| ORGANIZATION_MANAGER
| ORGANIZATION_MEMBERS_MANAGER
| ORGANIZATION_URLS_MANAGER
| ORGANIZATION_MEMBER.

Global Instance MemberRole_eq_dec : EqDecision MemberRole.
Proof. solve_decision. Defined.

(** Modelled from the spec: the enumeration [ServiceErrorType] of
    [model/common], the tag of an error object.  The page only ever compares
    a tag with [ENTITY_ALREADY_EXISTS]; every other tag is kept by name. *)
Inductive ServiceErrorType :=
| ENTITY_ALREADY_EXISTS
| OTHER_ERROR (tag : string).

Global Instance ServiceErrorType_eq_dec : EqDecision ServiceErrorType.
Proof. solve_decision. Defined.

Record ErrorResponseElement := { errorType : ServiceErrorType }.
Record MessageResponseDto := { message : string }.

Module Member.
Record OrganizationMemberDto := {
  id : Z;
  fullName : string;
  email : string;
  pictureUrl : option string;
  roles : list MemberRole;
  allowedAllUrls : bool;
  allowedUrls : list Z
}.
End Member.
Abbreviation OrganizationMemberDto := Member.OrganizationMemberDto.

Module ShortUrl.
Record ShortUrlDto := { id : Z; originalUrl : string }.
End ShortUrl.
Abbreviation ShortUrlDto := ShortUrl.ShortUrlDto.

Global Instance ShortUrlDto_eq_dec : EqDecision ShortUrlDto.
Proof. solve_decision. Defined.

Module Invite.
Record InviteMemberDto := {
  firstname : string;
  lastname : string;
  email : string;
  allowedAllUrls : bool;
  allowedUrls : list Z;
  roles : list MemberRole
}.
End Invite.
Abbreviation InviteMemberDto := Invite.InviteMemberDto.

Record UpdateMemberRolesDto := { dto_newRoles : list MemberRole }.
Record UpdateMemberUrlsDto := { dto_allowedAllUrls : bool; newUrlsIds : list Z }.

Inductive OrderBy := name | email.
Inductive OrderDir := asc | desc.

Global Instance OrderBy_eq_dec : EqDecision OrderBy.
Proof. solve_decision. Defined.
Global Instance OrderDir_eq_dec : EqDecision OrderDir.
Proof. solve_decision. Defined.

(** The query of a paged, sorted listing: [{ p, q, sb, dir }]. *)
Module Query.
Record ListParams := { p : Z; q : Z; sb : OrderBy; dir : OrderDir }.
End Query.
Abbreviation ListParams := Query.ListParams.

Record OrganizationMembersListDto := {
  entries : list OrganizationMemberDto;
  list_total : Z
}.
Record ShortUrlsListDto := { url_entries : list ShortUrlDto }.

(** A DOM node, known to the page only as the anchor of a menu. *)
Definition HTMLElement := nat.

(** ** JavaScript array operations *)

(** [Array.prototype.includes]. *)
Definition includes `{EqDecision A} (l : list A) (x : A) : bool :=
  bool_decide (x ∈ l).

Section ArraySort.
Context {A : Type} (compareFn : A → A → Z).

(** [Array.prototype.sort] is stable; for a comparator that orders by a
    key it yields the one stable arrangement, which insertion computes. *)
Fixpoint sort_insert (x : A) (l : list A) : list A :=
  match l with
  | [] => [x]
  | y :: l' =>
      if bool_decide (compareFn x y ≤ 0) then x :: y :: l'
      else y :: sort_insert x l'
  end.

Definition Array_sort (l : list A) : list A := foldr sort_insert [] l.
End ArraySort.

(** ** The API client and the toasts *)

Inductive ApiCall :=
| getOrganizationMembers (slug : string) (params : ListParams)
| updateMemberRoles (slug : string) (memberId : Z) (payload : UpdateMemberRolesDto)
| getShortUrls (slug : string) (q : Z)
| updateMemberUrls (slug : string) (memberId : Z) (dto : UpdateMemberUrlsDto)
| inviteMember (slug : string) (dto : InviteMemberDto)
| deleteMember (slug : string) (memberId : Z).

(** Each request returns a success payload or a tagged error object. *)
Definition ApiResult (c : ApiCall) : Type :=
  match c with
  | getOrganizationMembers _ _ => OrganizationMembersListDto + ErrorResponseElement
  | getShortUrls _ _ => ShortUrlsListDto + ErrorResponseElement
  | _ => MessageResponseDto + ErrorResponseElement
  end.

(** The backend answers a request knowing the requests that came before. *)
Definition Backend := list ApiCall → ∀ c : ApiCall, ApiResult c.

Inductive Toast :=
| success (msg : string)
| error (msg : string).


(** ** View state: one field per [useState] cell *)

Record PageState := {
  members : list OrganizationMemberDto;
  page : Z;
  perPage : Z;
  total : Z;
  orderBy : OrderBy;
  orderDir : OrderDir;
  loading : bool;
  rolesAnchor : option HTMLElement;
  rolesRow : option OrganizationMemberDto;
  newRoles : list MemberRole;
  urlsOpen : bool;
  urlsMember : option OrganizationMemberDto;
  allowedAll : bool;
  selectedUrls : list ShortUrlDto;
  allUrls : list ShortUrlDto;
  urlsLoading : bool;
  inviteOpen : bool;
  inviteData : InviteMemberDto;
  inviteErrors : gmap string string;
  removeAnchor : option HTMLElement;
  removeRow : option OrganizationMemberDto
}.

Definition withMembers (v : list OrganizationMemberDto) (s : PageState) : PageState :=
  {| members := v; page := page s; perPage := perPage s; total := total s;
     orderBy := orderBy s; orderDir := orderDir s; loading := loading s;
     rolesAnchor := rolesAnchor s; rolesRow := rolesRow s; newRoles := newRoles s;
     urlsOpen := urlsOpen s; urlsMember := urlsMember s; allowedAll := allowedAll s;
     selectedUrls := selectedUrls s; allUrls := allUrls s; urlsLoading := urlsLoading s;
     inviteOpen := inviteOpen s; inviteData := inviteData s;
     inviteErrors := inviteErrors s; removeAnchor := removeAnchor s;
     removeRow := removeRow s |}.
Definition withPage (v : Z) (s : PageState) : PageState :=
  {| members := members s; page := v; perPage := perPage s; total := total s;
     orderBy := orderBy s; orderDir := orderDir s; loading := loading s;
     rolesAnchor := rolesAnchor s; rolesRow := rolesRow s; newRoles := newRoles s;
     urlsOpen := urlsOpen s; urlsMember := urlsMember s; allowedAll := allowedAll s;
     selectedUrls := selectedUrls s; allUrls := allUrls s; urlsLoading := urlsLoading s;
     inviteOpen := inviteOpen s; inviteData := inviteData s;
     inviteErrors := inviteErrors s; removeAnchor := removeAnchor s;
     removeRow := removeRow s |}.
Definition withPerPage (v : Z) (s : PageState) : PageState :=
  {| members := members s; page := page s; perPage := v; total := total s;
     orderBy := orderBy s; orderDir := orderDir s; loading := loading s;
     rolesAnchor := rolesAnchor s; rolesRow := rolesRow s; newRoles := newRoles s;
     urlsOpen := urlsOpen s; urlsMember := urlsMember s; allowedAll := allowedAll s;
     selectedUrls := selectedUrls s; allUrls := allUrls s; urlsLoading := urlsLoading s;
     inviteOpen := inviteOpen s; inviteData := inviteData s;
     inviteErrors := inviteErrors s; removeAnchor := removeAnchor s;
     removeRow := removeRow s |}.
Definition withTotal (v : Z) (s : PageState) : PageState :=
  {| members := members s; page := page s; perPage := perPage s; total := v;
     orderBy := orderBy s; orderDir := orderDir s; loading := loading s;
     rolesAnchor := rolesAnchor s; rolesRow := rolesRow s; newRoles := newRoles s;
     urlsOpen := urlsOpen s; urlsMember := urlsMember s; allowedAll := allowedAll s;
     selectedUrls := selectedUrls s; allUrls := allUrls s; urlsLoading := urlsLoading s;
     inviteOpen := inviteOpen s; inviteData := inviteData s;
     inviteErrors := inviteErrors s; removeAnchor := removeAnchor s;
     removeRow := removeRow s |}.
Definition withOrderBy (v : OrderBy) (s : PageState) : PageState :=
  {| members := members s; page := page s; perPage := perPage s; total := total s;
     orderBy := v; orderDir := orderDir s; loading := loading s;
     rolesAnchor := rolesAnchor s; rolesRow := rolesRow s; newRoles := newRoles s;
     urlsOpen := urlsOpen s; urlsMember := urlsMember s; allowedAll := allowedAll s;
     selectedUrls := selectedUrls s; allUrls := allUrls s; urlsLoading := urlsLoading s;
     inviteOpen := inviteOpen s; inviteData := inviteData s;
     inviteErrors := inviteErrors s; removeAnchor := removeAnchor s;
     removeRow := removeRow s |}.
Definition withOrderDir (v : OrderDir) (s : PageState) : PageState :=
  {| members := members s; page := page s; perPage := perPage s; total := total s;
     orderBy := orderBy s; orderDir := v; loading := loading s;
     rolesAnchor := rolesAnchor s; rolesRow := rolesRow s; newRoles := newRoles s;
     urlsOpen := urlsOpen s; urlsMember := urlsMember s; allowedAll := allowedAll s;
     selectedUrls := selectedUrls s; allUrls := allUrls s; urlsLoading := urlsLoading s;
     inviteOpen := inviteOpen s; inviteData := inviteData s;
     inviteErrors := inviteErrors s; removeAnchor := removeAnchor s;
     removeRow := removeRow s |}.
Definition withLoading (v : bool) (s : PageState) : PageState :=
  {| members := members s; page := page s; perPage := perPage s; total := total s;
     orderBy := orderBy s; orderDir := orderDir s; loading := v;
     rolesAnchor := rolesAnchor s; rolesRow := rolesRow s; newRoles := newRoles s;
     urlsOpen := urlsOpen s; urlsMember := urlsMember s; allowedAll := allowedAll s;
     selectedUrls := selectedUrls s; allUrls := allUrls s; urlsLoading := urlsLoading s;
     inviteOpen := inviteOpen s; inviteData := inviteData s;
     inviteErrors := inviteErrors s; removeAnchor := removeAnchor s;
     removeRow := removeRow s |}.
Definition withRolesAnchor (v : option HTMLElement) (s : PageState) : PageState :=
  {| members := members s; page := page s; perPage := perPage s; total := total s;
     orderBy := orderBy s; orderDir := orderDir s; loading := loading s;
     rolesAnchor := v; rolesRow := rolesRow s; newRoles := newRoles s;
     urlsOpen := urlsOpen s; urlsMember := urlsMember s; allowedAll := allowedAll s;
     selectedUrls := selectedUrls s; allUrls := allUrls s; urlsLoading := urlsLoading s;
     inviteOpen := inviteOpen s; inviteData := inviteData s;
     inviteErrors := inviteErrors s; removeAnchor := removeAnchor s;
     removeRow := removeRow s |}.
Definition withRolesRow (v : option OrganizationMemberDto) (s : PageState) : PageState :=
  {| members := members s; page := page s; perPage := perPage s; total := total s;
     orderBy := orderBy s; orderDir := orderDir s; loading := loading s;
     rolesAnchor := rolesAnchor s; rolesRow := v; newRoles := newRoles s;
     urlsOpen := urlsOpen s; urlsMember := urlsMember s; allowedAll := allowedAll s;
     selectedUrls := selectedUrls s; allUrls := allUrls s; urlsLoading := urlsLoading s;
     inviteOpen := inviteOpen s; inviteData := inviteData s;
     inviteErrors := inviteErrors s; removeAnchor := removeAnchor s;
     removeRow := removeRow s |}.
Definition withNewRoles (v : list MemberRole) (s : PageState) : PageState :=
  {| members := members s; page := page s; perPage := perPage s; total := total s;
     orderBy := orderBy s; orderDir := orderDir s; loading := loading s;
     rolesAnchor := rolesAnchor s; rolesRow := rolesRow s; newRoles := v;
     urlsOpen := urlsOpen s; urlsMember := urlsMember s; allowedAll := allowedAll s;
     selectedUrls := selectedUrls s; allUrls := allUrls s; urlsLoading := urlsLoading s;
     inviteOpen := inviteOpen s; inviteData := inviteData s;
     inviteErrors := inviteErrors s; removeAnchor := removeAnchor s;
     removeRow := removeRow s |}.
Definition withUrlsOpen (v : bool) (s : PageState) : PageState :=
  {| members := members s; page := page s; perPage := perPage s; total := total s;
     orderBy := orderBy s; orderDir := orderDir s; loading := loading s;
     rolesAnchor := rolesAnchor s; rolesRow := rolesRow s; newRoles := newRoles s;
     urlsOpen := v; urlsMember := urlsMember s; allowedAll := allowedAll s;
     selectedUrls := selectedUrls s; allUrls := allUrls s; urlsLoading := urlsLoading s;
     inviteOpen := inviteOpen s; inviteData := inviteData s;
     inviteErrors := inviteErrors s; removeAnchor := removeAnchor s;
     removeRow := removeRow s |}.
Definition withUrlsMember (v : option OrganizationMemberDto) (s : PageState) : PageState :=
  {| members := members s; page := page s; perPage := perPage s; total := total s;
     orderBy := orderBy s; orderDir := orderDir s; loading := loading s;
     rolesAnchor := rolesAnchor s; rolesRow := rolesRow s; newRoles := newRoles s;
     urlsOpen := urlsOpen s; urlsMember := v; allowedAll := allowedAll s;
     selectedUrls := selectedUrls s; allUrls := allUrls s; urlsLoading := urlsLoading s;
     inviteOpen := inviteOpen s; inviteData := inviteData s;
     inviteErrors := inviteErrors s; removeAnchor := removeAnchor s;
     removeRow := removeRow s |}.
Definition withAllowedAll (v : bool) (s : PageState) : PageState :=
  {| members := members s; page := page s; perPage := perPage s; total := total s;
     orderBy := orderBy s; orderDir := orderDir s; loading := loading s;
     rolesAnchor := rolesAnchor s; rolesRow := rolesRow s; newRoles := newRoles s;
     urlsOpen := urlsOpen s; urlsMember := urlsMember s; allowedAll := v;
     selectedUrls := selectedUrls s; allUrls := allUrls s; urlsLoading := urlsLoading s;
     inviteOpen := inviteOpen s; inviteData := inviteData s;
     inviteErrors := inviteErrors s; removeAnchor := removeAnchor s;
     removeRow := removeRow s |}.
Definition withSelectedUrls (v : list ShortUrlDto) (s : PageState) : PageState :=
  {| members := members s; page := page s; perPage := perPage s; total := total s;
     orderBy := orderBy s; orderDir := orderDir s; loading := loading s;
     rolesAnchor := rolesAnchor s; rolesRow := rolesRow s; newRoles := newRoles s;
     urlsOpen := urlsOpen s; urlsMember := urlsMember s; allowedAll := allowedAll s;
     selectedUrls := v; allUrls := allUrls s; urlsLoading := urlsLoading s;
     inviteOpen := inviteOpen s; inviteData := inviteData s;
     inviteErrors := inviteErrors s; removeAnchor := removeAnchor s;
     removeRow := removeRow s |}.
Definition withAllUrls (v : list ShortUrlDto) (s : PageState) : PageState :=
  {| members := members s; page := page s; perPage := perPage s; total := total s;
     orderBy := orderBy s; orderDir := orderDir s; loading := loading s;
     rolesAnchor := rolesAnchor s; rolesRow := rolesRow s; newRoles := newRoles s;
     urlsOpen := urlsOpen s; urlsMember := urlsMember s; allowedAll := allowedAll s;
     selectedUrls := selectedUrls s; allUrls := v; urlsLoading := urlsLoading s;
     inviteOpen := inviteOpen s; inviteData := inviteData s;
     inviteErrors := inviteErrors s; removeAnchor := removeAnchor s;
     removeRow := removeRow s |}.
Definition withUrlsLoading (v : bool) (s : PageState) : PageState :=
  {| members := members s; page := page s; perPage := perPage s; total := total s;
     orderBy := orderBy s; orderDir := orderDir s; loading := loading s;
     rolesAnchor := rolesAnchor s; rolesRow := rolesRow s; newRoles := newRoles s;
     urlsOpen := urlsOpen s; urlsMember := urlsMember s; allowedAll := allowedAll s;
     selectedUrls := selectedUrls s; allUrls := allUrls s; urlsLoading := v;
     inviteOpen := inviteOpen s; inviteData := inviteData s;
     inviteErrors := inviteErrors s; removeAnchor := removeAnchor s;
     removeRow := removeRow s |}.
Definition withInviteOpen (v : bool) (s : PageState) : PageState :=
  {| members := members s; page := page s; perPage := perPage s; total := total s;
     orderBy := orderBy s; orderDir := orderDir s; loading := loading s;
     rolesAnchor := rolesAnchor s; rolesRow := rolesRow s; newRoles := newRoles s;
     urlsOpen := urlsOpen s; urlsMember := urlsMember s; allowedAll := allowedAll s;
     selectedUrls := selectedUrls s; allUrls := allUrls s; urlsLoading := urlsLoading s;
     inviteOpen := v; inviteData := inviteData s; inviteErrors := inviteErrors s;
     removeAnchor := removeAnchor s; removeRow := removeRow s |}.
Definition withInviteData (v : InviteMemberDto) (s : PageState) : PageState :=
  {| members := members s; page := page s; perPage := perPage s; total := total s;
     orderBy := orderBy s; orderDir := orderDir s; loading := loading s;
     rolesAnchor := rolesAnchor s; rolesRow := rolesRow s; newRoles := newRoles s;
     urlsOpen := urlsOpen s; urlsMember := urlsMember s; allowedAll := allowedAll s;
     selectedUrls := selectedUrls s; allUrls := allUrls s; urlsLoading := urlsLoading s;
     inviteOpen := inviteOpen s; inviteData := v; inviteErrors := inviteErrors s;
     removeAnchor := removeAnchor s; removeRow := removeRow s |}.
Definition withInviteErrors (v : gmap string string) (s : PageState) : PageState :=
  {| members := members s; page := page s; perPage := perPage s; total := total s;
     orderBy := orderBy s; orderDir := orderDir s; loading := loading s;
     rolesAnchor := rolesAnchor s; rolesRow := rolesRow s; newRoles := newRoles s;
     urlsOpen := urlsOpen s; urlsMember := urlsMember s; allowedAll := allowedAll s;
     selectedUrls := selectedUrls s; allUrls := allUrls s; urlsLoading := urlsLoading s;
     inviteOpen := inviteOpen s; inviteData := inviteData s; inviteErrors := v;
     removeAnchor := removeAnchor s; removeRow := removeRow s |}.
Definition withRemoveAnchor (v : option HTMLElement) (s : PageState) : PageState :=
  {| members := members s; page := page s; perPage := perPage s; total := total s;
     orderBy := orderBy s; orderDir := orderDir s; loading := loading s;
     rolesAnchor := rolesAnchor s; rolesRow := rolesRow s; newRoles := newRoles s;
     urlsOpen := urlsOpen s; urlsMember := urlsMember s; allowedAll := allowedAll s;
     selectedUrls := selectedUrls s; allUrls := allUrls s; urlsLoading := urlsLoading s;
     inviteOpen := inviteOpen s; inviteData := inviteData s;
     inviteErrors := inviteErrors s; removeAnchor := v; removeRow := removeRow s |}.
Definition withRemoveRow (v : option OrganizationMemberDto) (s : PageState) : PageState :=
  {| members := members s; page := page s; perPage := perPage s; total := total s;
     orderBy := orderBy s; orderDir := orderDir s; loading := loading s;
     rolesAnchor := rolesAnchor s; rolesRow := rolesRow s; newRoles := newRoles s;
     urlsOpen := urlsOpen s; urlsMember := urlsMember s; allowedAll := allowedAll s;
     selectedUrls := selectedUrls s; allUrls := allUrls s; urlsLoading := urlsLoading s;
     inviteOpen := inviteOpen s; inviteData := inviteData s;
     inviteErrors := inviteErrors s; removeAnchor := removeAnchor s; removeRow := v |}.

Definition emptyInvite : InviteMemberDto :=
  {| Invite.firstname := ""; Invite.lastname := ""; Invite.email := "";
     Invite.allowedAllUrls := true; Invite.allowedUrls := []; Invite.roles := [] |}.

(** The initial values handed to the hooks. *)
Definition initialState : PageState :=
  {| members := []; page := 0; perPage := 10; total := 0;
     orderBy := name; orderDir := asc; loading := false;
     rolesAnchor := None; rolesRow := None; newRoles := [];
     urlsOpen := false; urlsMember := None; allowedAll := false;
     selectedUrls := []; allUrls := []; urlsLoading := false;
     inviteOpen := false; inviteData := emptyInvite; inviteErrors := ∅;
     removeAnchor := None; removeRow := None |}.

(** ** The handler monad *)

Record World := {
  view : PageState;
  calls : list ApiCall;
  toasts : list Toast
}.

(** Nothing requested, nothing shown, the hooks at their initial values. *)
Definition blank : World := {| view := initialState; calls := []; toasts := [] |}.

Definition M (A : Type) : Type := World → A * World.

Definition ret {A} (a : A) : M A := λ w, (a, w).
Definition bind {A B} (m : M A) (k : A → M B) : M B :=
  λ w, let '(a, w') := m w in k a w'.

Declare Scope handler_scope.
Delimit Scope handler_scope with handler.
Notation "'let!' x := m 'in' k" := (bind m (λ x, k))
  (at level 10, x name, m at level 100, k at level 200) : handler_scope.
Notation "m ;; k" := (bind m (λ _, k))
  (at level 100, k at level 200, right associativity) : handler_scope.
Local Open Scope handler_scope.

Definition exec {A} (m : M A) (w : World) : World := (m w).2.

Definition update (f : PageState → PageState) : M unit :=
  λ w, (tt, {| view := f (view w); calls := calls w; toasts := toasts w |}).

Definition toast (t : Toast) : M unit :=
  λ w, (tt, {| view := view w; calls := calls w; toasts := toasts w ++ [t] |}).

Definition setMembers v := update (withMembers v).
Definition setPage v := update (withPage v).
Definition setPerPage v := update (withPerPage v).
Definition setTotal v := update (withTotal v).
Definition setOrderBy v := update (withOrderBy v).
Definition setOrderDir v := update (withOrderDir v).
Definition setLoading v := update (withLoading v).
Definition setRolesAnchor v := update (withRolesAnchor v).
Definition setRolesRow v := update (withRolesRow v).
Definition setNewRoles v := update (withNewRoles v).
Definition setUrlsOpen v := update (withUrlsOpen v).
Definition setUrlsMember v := update (withUrlsMember v).
Definition setAllowedAll v := update (withAllowedAll v).
Definition setSelectedUrls v := update (withSelectedUrls v).
Definition setAllUrls v := update (withAllUrls v).
Definition setUrlsLoading v := update (withUrlsLoading v).
Definition setInviteOpen v := update (withInviteOpen v).
Definition setInviteData v := update (withInviteData v).
Definition setInviteErrors v := update (withInviteErrors v).
Definition setRemoveAnchor v := update (withRemoveAnchor v).
Definition setRemoveRow v := update (withRemoveRow v).

(** The functional form of a setter, [setX(prev => ...)], reads the pending
    value of its own cell. *)
Definition setNewRoles_fn (f : list MemberRole → list MemberRole) : M unit :=
  update (λ s, withNewRoles (f (newRoles s)) s).
Definition setInviteData_fn (f : InviteMemberDto → InviteMemberDto) : M unit :=
  update (λ s, withInviteData (f (inviteData s)) s).

(** ** What the page imports *)

(** The values the component reads from its surroundings: the slug kept in
    local storage, the user name of the access token (absent without a
    token), the role predicate of the auth helper over the cached permission
    set, and the backend behind the API client.  Two more fields stand for
    the schema library: its e-mail pattern, and the text of its message for
    a value outside an enumeration (which spells out the string values of
    [MemberRole], not among the sources at hand). *)
Class Environment := {
  slug : string;
  currentEmail : option string;
  hasRole : MemberRole → bool;
  backend : Backend;
  isEmail : string → bool;
  invalidEnumMessage : MemberRole → string
}.

(** ** The invite form schema *)

Inductive PathSegment := key (k : string) | index (i : nat).

Record ZodIssue := { path : list PathSegment; issue_message : string }.

(** A parse is valid, dirty (issues were raised, the value was still
    produced) or aborted (no value). *)
Inductive ParseStatus := valid | dirty | aborted.

Definition ParseReturn : Type := ParseStatus * list ZodIssue.

Definition mergeStatus (a b : ParseStatus) : ParseStatus :=
  match a, b with
  | aborted, _ | _, aborted => aborted
  | dirty, _ | _, dirty => dirty
  | valid, valid => valid
  end.

Definition mergeReturns (rs : list ParseReturn) : ParseReturn :=
  (foldr mergeStatus valid rs.*1, concat rs.*2).

Definition Schema (A : Type) : Type := list PathSegment → A → ParseReturn.

(** [z.string().nonempty()]: a failed length check leaves the string dirty. *)
Definition z_string_nonempty : Schema string :=
  λ at_path v,
    if bool_decide (String.length v = 0%nat)
    then (dirty, [{| path := at_path;
                     issue_message := "String must contain at least 1 character(s)" |}])
    else (valid, []).

Definition z_boolean : Schema bool := λ _ _, (valid, []).
Definition z_number : Schema Z := λ _ _, (valid, []).

(** [z.array(item)]: items are parsed in order, each under its index. *)
Definition z_array {A} (item : Schema A) : Schema (list A) :=
  λ at_path v, mergeReturns (imap (λ i x, item (at_path ++ [index i]) x) v).

(** [.refine(check, { message, path })]: the check is skipped when the inner
    parse aborted, and run on a valid or dirty value. *)
Definition refine {A} (inner : Schema A) (check : A → bool)
    (msg : string) (sub : list PathSegment) : Schema A :=
  λ at_path v,
    let '(status, issues) := inner at_path v in
    match status with
    | aborted => (aborted, issues)
    | _ =>
        if check v then (status, issues)
        else (dirty, issues ++ [{| path := at_path ++ sub; issue_message := msg |}])
    end.

(** [schema.safeParse(data)]: the data on success, the issues otherwise. *)
Definition safeParse {A} (schema : Schema A) (data : A) : A + list ZodIssue :=
  match schema [] data with
  | (valid, _) => inl data
  | (_, issues) => inr issues
  end.

(** The property name [e.path[0]] indexes an object with. *)
Definition propertyKey (seg : option PathSegment) : string :=
  match seg with
  | Some (key k) => k
  | Some (index i) => pretty i
  | None => "undefined"
  end.

Section Page.
Context {env : Environment}.

(** [z.string().email()]. *)
Definition z_string_email : Schema string :=
  λ at_path v,
    if isEmail v then (valid, [])
    else (dirty, [{| path := at_path; issue_message := "Invalid email" |}]).

(** [z.enum(values)]: a value outside the enumeration aborts. *)
Definition z_enum (values : list MemberRole) : Schema MemberRole :=
  λ at_path v,
    if includes values v then (valid, [])
    else (aborted, [{| path := at_path; issue_message := invalidEnumMessage v |}]).

(** The object of the schema, its fields parsed in the order of the
    shape.  Every field of the form data is present, so [.optional()]
    never meets [undefined]. *)
Definition inviteObject : Schema InviteMemberDto :=
  λ at_path data,
    mergeReturns
      [ z_string_nonempty (at_path ++ [key "firstname"]) (Invite.firstname data);
        z_string_nonempty (at_path ++ [key "lastname"]) (Invite.lastname data);
        z_string_email (at_path ++ [key "email"]) (Invite.email data);
        z_array
          (z_enum [ORGANIZATION_MEMBERS_MANAGER; ORGANIZATION_MANAGER;
                   ORGANIZATION_URLS_MANAGER; ORGANIZATION_MEMBER])
          (at_path ++ [key "roles"]) (Invite.roles data);
        z_boolean (at_path ++ [key "allowedAllUrls"]) (Invite.allowedAllUrls data);
        z_array z_number (at_path ++ [key "allowedUrls"]) (Invite.allowedUrls data) ].

Definition inviteSchema : Schema InviteMemberDto :=
  refine inviteObject
    (λ data, Invite.allowedAllUrls data
             || bool_decide (0 < length (Invite.allowedUrls data))%nat)
    "Select at least one URL or Allow All URLs"
    [key "allowedUrls"].

(** ** Requests *)

(** A call of the API client: the request is logged and answered. *)
Definition request (c : ApiCall) : M (ApiResult c) :=
  λ w, (backend (calls w) c,
        {| view := view w; calls := calls w ++ [c]; toasts := toasts w |}).

Definition canManageMembers : bool :=
  hasRole ORGANIZATION_OWNER || hasRole ORGANIZATION_ADMIN
  || hasRole ORGANIZATION_MEMBERS_MANAGER.

Definition canManageUrls : bool :=
  hasRole ORGANIZATION_URLS_MANAGER || hasRole ORGANIZATION_ADMIN
  || hasRole ORGANIZATION_OWNER.

(** ** The member list *)

(** The comparator handed to [sort] in [fetchMembers]. *)
Definition ownerFirst (a b : OrganizationMemberDto) : Z :=
  (if includes (Member.roles b) ORGANIZATION_OWNER then 1 else 0)
  - (if includes (Member.roles a) ORGANIZATION_OWNER then 1 else 0).

(** The query [fetchMembers] sends: [{ p, q, sb, dir }] of its render. *)
Definition fetchMembers_query (s : PageState) : ListParams :=
  {| Query.p := page s; Query.q := perPage s;
     Query.sb := orderBy s; Query.dir := orderDir s |}.

Definition fetchMembers (s : PageState) : M unit :=
  setLoading true ;;
  let! res := request (getOrganizationMembers slug (fetchMembers_query s)) in
  match res with
  | inl res =>
      let sorted := Array_sort ownerFirst (entries res) in
      setMembers sorted ;;
      setTotal (list_total res)
  | inr _ => toast (error "Could not get members of the organization")
  end ;;
  setLoading false.

Definition handleSort (s : PageState) (property : OrderBy) : M unit :=
  let isAsc := bool_decide (orderBy s = property) && bool_decide (orderDir s = asc) in
  setOrderDir (if isAsc then desc else asc) ;;
  setOrderBy property ;;
  setPage 0.

(** ** Editing the roles of a member *)

Definition handleRolesClick (s : PageState) (e : HTMLElement)
    (member : OrganizationMemberDto) : M unit :=
  let isSelf := bool_decide (Some (Member.email member) = currentEmail) in
  let isOwner := includes (Member.roles member) ORGANIZATION_OWNER in
  if negb canManageMembers || isSelf || isOwner then ret tt
  else
    setRolesRow (Some member) ;;
    setNewRoles (filter (λ r, r ≠ ORGANIZATION_OWNER) (Member.roles member)) ;;
    setRolesAnchor (Some e).

Definition handleRolesClose : M unit :=
  setRolesAnchor None ;;
  setRolesRow None.

Definition handleRoleToggle (role : MemberRole) : M unit :=
  setNewRoles_fn (λ prev,
    if includes prev role then filter (λ r, r ≠ role) prev else prev ++ [role]).

(** The constant [payload] of [handleRolesUpdate]. *)
Definition handleRolesUpdate_payload (s : PageState) : UpdateMemberRolesDto :=
  {| dto_newRoles :=
       if bool_decide (0 < length (newRoles s))%nat then newRoles s
       else [ORGANIZATION_MEMBER] |}.

Definition handleRolesUpdate (s : PageState) : M unit :=
  match rolesRow s with
  | None => ret tt
  | Some row =>
      let payload := handleRolesUpdate_payload s in
      let! res := request (updateMemberRoles slug (Member.id row) payload) in
      match res with
      | inr _ => toast (error "Could not update member roles")
      | inl _ =>
          toast (success "Successfully updated member roles") ;;
          handleRolesClose ;;
          fetchMembers s
      end
  end.

(** ** Editing the URL access of a member *)

Definition openUrlsDialog (s : PageState) (member : OrganizationMemberDto) : M unit :=
  let isSelf := bool_decide (Some (Member.email member) = currentEmail) in
  let isOwner := includes (Member.roles member) ORGANIZATION_OWNER in
  if negb canManageUrls || isSelf || isOwner then ret tt
  else
    setUrlsOpen true ;;
    setUrlsLoading true ;;
    setUrlsMember (Some member) ;;
    let! urlsRes := request (getShortUrls slug 10000) in
    let! entries :=
      match urlsRes with
      | inl urlsRes => setAllUrls (url_entries urlsRes) ;; ret (url_entries urlsRes)
      | inr _ => ret []
      end in
    setAllowedAll (Member.allowedAllUrls member) ;;
    setSelectedUrls
      (if Member.allowedAllUrls member then []
       else filter (λ u, includes (Member.allowedUrls member) (ShortUrl.id u) = true)
              entries) ;;
    setUrlsLoading false.

(** The constant [dto] of [handleUrlsSave]. *)
Definition handleUrlsSave_dto (s : PageState) : UpdateMemberUrlsDto :=
  {| dto_allowedAllUrls := allowedAll s;
     newUrlsIds := if allowedAll s then [] else ShortUrl.id <$> selectedUrls s |}.

Definition handleUrlsSave (s : PageState) : M unit :=
  match urlsMember s with
  | None => ret tt
  | Some member =>
      let dto := handleUrlsSave_dto s in
      let! res := request (updateMemberUrls slug (Member.id member) dto) in
      match res with
      | inr _ => toast (error "Could not update allowed URLs of member")
      | inl _ =>
          toast (success "Successfully updated member allowed URLs") ;;
          setUrlsOpen false ;;
          fetchMembers s
      end
  end.

(** ** Inviting a member *)

Definition handleInviteOpen : M unit :=
  setInviteOpen true ;;
  let! urlsRes := request (getShortUrls slug 10000) in
  match urlsRes with
  | inl urlsRes => setAllUrls (url_entries urlsRes)
  | inr _ => ret tt
  end.

Definition handleInviteClose : M unit := setInviteOpen false.

(** A field of the invite form together with its new value: the two
    arguments of [handleInviteChange]. *)
Inductive InviteField :=
| firstname (value : string)
| lastname (value : string)
| email_address (value : string)
| allowedAllUrls (value : bool)
| allowedUrls (value : list Z)
| roles (value : list MemberRole).

Definition assign (field : InviteField) (prev : InviteMemberDto) : InviteMemberDto :=
  let '{| Invite.firstname := fn; Invite.lastname := ln; Invite.email := em;
          Invite.allowedAllUrls := all; Invite.allowedUrls := urls;
          Invite.roles := rs |} := prev in
  match field with
  | firstname v => Invite.Build_InviteMemberDto v ln em all urls rs
  | lastname v => Invite.Build_InviteMemberDto fn v em all urls rs
  | email_address v => Invite.Build_InviteMemberDto fn ln v all urls rs
  | allowedAllUrls v => Invite.Build_InviteMemberDto fn ln em v urls rs
  | allowedUrls v => Invite.Build_InviteMemberDto fn ln em all v rs
  | roles v => Invite.Build_InviteMemberDto fn ln em all urls v
  end.

Definition handleInviteChange (field : InviteField) : M unit :=
  setInviteData_fn (assign field).

(** The constant [dto] of [handleInviteSubmit]: the form data spread, with
    [roles] replaced. *)
Definition handleInviteSubmit_dto (s : PageState) : InviteMemberDto :=
  assign
    (roles (if bool_decide (0 < length (Invite.roles (inviteData s)))%nat
            then Invite.roles (inviteData s)
            else [ORGANIZATION_MEMBER]))
    (inviteData s).

Definition handleInviteSubmit (s : PageState) : M unit :=
  match safeParse inviteSchema (inviteData s) with
  | inr errors =>
      let errs : gmap string string :=
        foldl (λ errs e, <[propertyKey (head (path e)) := issue_message e]> errs)
          ∅ errors in
      setInviteErrors errs
  | inl _ =>
      let dto := handleInviteSubmit_dto s in
      let! res := request (inviteMember slug dto) in
      match res with
      | inr res =>
          if bool_decide (errorType res = ENTITY_ALREADY_EXISTS)
          then toast (error "Member with this email already exists")
          else toast (error "Could not invite new member")
      | inl _ =>
          toast (success "Successfully invited new member") ;;
          handleInviteClose ;;
          fetchMembers s ;;
          setInviteData emptyInvite ;;
          setInviteErrors ∅
      end
  end.

(** ** Removing a member *)

Definition handleRemoveClick (e : HTMLElement) (member : OrganizationMemberDto)
    : M unit :=
  setRemoveRow (Some member) ;;
  setRemoveAnchor (Some e).

Definition handleRemove (s : PageState) : M unit :=
  match removeRow s with
  | None => ret tt
  | Some row =>
      let! res := request (deleteMember slug (Member.id row)) in
      match res with
      | inr _ => toast (error "Could not remove member")
      | inl _ =>
          toast (success "Member was successfully removed") ;;
          setRemoveAnchor None ;;
          setPage 0 ;;
          fetchMembers s
      end
  end.

(** ** Rendering *)

Definition ROLE_LABELS (r : MemberRole) : string :=
  match r with
  | ORGANIZATION_OWNER => "Owner"
  | ORGANIZATION_ADMIN => "Admin"
  | ORGANIZATION_MANAGER => "Organization Manager"
  | ORGANIZATION_MEMBERS_MANAGER => "Members Manager"
  | ORGANIZATION_URLS_MANAGER => "URLs Manager"
  | ORGANIZATION_MEMBER => "Member"
  end.

(** The constants computed at the head of the row callback. *)
Record RowFlags := {
  isSelf : bool;
  isOwner : bool;
  isDisabled : bool;
  canOpenRolesMenu : bool;
  labels : list string;
  canEditUrls : bool
}.

Definition rowFlags (m : OrganizationMemberDto) : RowFlags :=
  let isSelf := bool_decide (Some (Member.email m) = currentEmail) in
  let isOwner := includes (Member.roles m) ORGANIZATION_OWNER in
  let isDisabled := isSelf || isOwner in
  {| isSelf := isSelf;
     isOwner := isOwner;
     isDisabled := isDisabled;
     canOpenRolesMenu := canManageMembers && negb isDisabled;
     labels :=
       if bool_decide (Member.roles m = [ORGANIZATION_MEMBER]) then ["Member"]
       else ROLE_LABELS <$> Member.roles m;
     canEditUrls := canManageUrls && negb isDisabled |}.

(** The URLs cell holds a link button or plain text. *)
Inductive UrlsCell :=
| Link (text : string)
| PlainText (text : string).

(** What a table row shows, as far as the controls go: the cursor over the
    roles cell and its click handler, the role chips, the expand icon, the
    URLs cell with the handler of its link, and the button of the actions
    cell. *)
Record TableRow := {
  cursor : string;
  rolesCell_onClick : HTMLElement → M unit;
  chips : list string;
  ExpandMoreIcon : bool;
  urlsCell : UrlsCell;
  Link_onClick : option (M unit);
  IconButton : bool
}.

Definition renderRow (s : PageState) (m : OrganizationMemberDto) : TableRow :=
  let f := rowFlags m in
  let text :=
    if Member.allowedAllUrls m then "All URLs"
    else pretty (length (Member.allowedUrls m)) +:+ " URLs" in
  {| cursor := if canOpenRolesMenu f then "pointer" else "default";
     rolesCell_onClick := λ e,
       if canOpenRolesMenu f then handleRolesClick s e m else ret tt;
     chips := labels f;
     ExpandMoreIcon := canOpenRolesMenu f;
     urlsCell := if canEditUrls f then Link text else PlainText text;
     Link_onClick := if canEditUrls f then Some (openUrlsDialog s m) else None;
     IconButton := canManageMembers && negb (isDisabled f) |}.

(** The roles offered as checkboxes, in the roles menu and in the invite
    dialog alike. *)
Definition checkboxRoles : list MemberRole :=
  [ORGANIZATION_MEMBERS_MANAGER; ORGANIZATION_MANAGER; ORGANIZATION_URLS_MANAGER].

Definition canToggle (role : MemberRole) : bool :=
  let isAdminOrOwner := hasRole ORGANIZATION_OWNER || hasRole ORGANIZATION_ADMIN in
  isAdminOrOwner || hasRole role.

(** [disabled] of the Update Roles button. *)
Definition updateRolesDisabled (s : PageState) : bool :=
  bool_decide (length (newRoles s) = 0%nat).

(** [disabled] of the Send Invite button. *)
Definition sendInviteDisabled (s : PageState) : bool :=
  negb (Invite.allowedAllUrls (inviteData s))
  && bool_decide (length (Invite.allowedUrls (inviteData s)) = 0%nat).

(** ** The page as a transition system *)

(** What the user can do to the rendered page. *)
Inductive UiEvent :=
| InviteMember_click
| SortLabel_click (property : OrderBy)
| rolesCell_click (e : HTMLElement) (row : nat)
| urlsLink_click (row : nat)
| IconButton_click (e : HTMLElement) (row : nat)
| Pagination_pageChange (newPage : Z)
| Pagination_rowsPerPageChange (value : Z)
| rolesMenu_close
| roleCheckbox_change (role : MemberRole)
| UpdateRoles_click
| urlsDialog_close
| allowAll_change
| selectUrls_change (v : list ShortUrlDto)
| Save_click
| inviteDialog_close
| firstName_change (value : string)
| lastName_change (value : string)
| email_change (value : string)
| inviteAllowAll_change
| inviteUrls_change (v : list ShortUrlDto)
| inviteRole_change (role : MemberRole)
| SendInvite_click
| removeMenu_close
| RemoveMember_click.

Definition when (rendered : bool) (h : M unit) : option (M unit) :=
  if rendered then Some h else None.

Definition isOpen {A} (anchorEl : option A) : bool :=
  match anchorEl with Some _ => true | None => false end.

(** The handler an event reaches in the render of state [s], if the
    control it comes from is rendered and enabled there.  The table is
    rendered while the list is not loading; the children of a menu or a
    dialog while it is open; a checkbox reports the negation of what it
    shows; a selection is made among the options offered. *)
Definition dispatch (s : PageState) (ev : UiEvent) : option (M unit) :=
  match ev with
  | InviteMember_click => when canManageMembers handleInviteOpen
  | SortLabel_click property => when (negb (loading s)) (handleSort s property)
  | rolesCell_click e row =>
      m ← members s !! row;
      when (negb (loading s)) (rolesCell_onClick (renderRow s m) e)
  | urlsLink_click row =>
      m ← members s !! row;
      h ← Link_onClick (renderRow s m);
      when (negb (loading s)) h
  | IconButton_click e row =>
      m ← members s !! row;
      when (negb (loading s) && IconButton (renderRow s m)) (handleRemoveClick e m)
  | Pagination_pageChange newPage => when (negb (loading s)) (setPage newPage)
  | Pagination_rowsPerPageChange value =>
      when (negb (loading s) && includes [5; 10; 25] value)
        (setPerPage value ;; setPage 0)
  | rolesMenu_close => when (isOpen (rolesAnchor s)) handleRolesClose
  | roleCheckbox_change role =>
      when (isOpen (rolesAnchor s) && includes checkboxRoles role && canToggle role)
        (handleRoleToggle role)
  | UpdateRoles_click =>
      when (isOpen (rolesAnchor s) && negb (updateRolesDisabled s))
        (handleRolesUpdate s)
  | urlsDialog_close => when (urlsOpen s) (setUrlsOpen false)
  | allowAll_change => when (urlsOpen s) (setAllowedAll (negb (allowedAll s)))
  | selectUrls_change v =>
      when (urlsOpen s && negb (allowedAll s) && negb (urlsLoading s)
            && forallb (includes (allUrls s)) v)
        (setSelectedUrls v)
  | Save_click => when (urlsOpen s) (handleUrlsSave s)
  | inviteDialog_close => when (inviteOpen s) handleInviteClose
  | firstName_change value =>
      when (inviteOpen s) (handleInviteChange (firstname value))
  | lastName_change value =>
      when (inviteOpen s) (handleInviteChange (lastname value))
  | email_change value =>
      when (inviteOpen s) (handleInviteChange (email_address value))
  | inviteAllowAll_change =>
      when (inviteOpen s)
        (handleInviteChange
           (allowedAllUrls (negb (Invite.allowedAllUrls (inviteData s)))))
  | inviteUrls_change v =>
      when (inviteOpen s && negb (Invite.allowedAllUrls (inviteData s))
            && forallb (includes (allUrls s)) v)
        (handleInviteChange (allowedUrls (ShortUrl.id <$> v)))
  | inviteRole_change role =>
      let c := negb (includes (Invite.roles (inviteData s)) role) in
      when (inviteOpen s && includes checkboxRoles role)
        (handleInviteChange
           (roles (if c then Invite.roles (inviteData s) ++ [role]
                   else filter (λ r, r ≠ role) (Invite.roles (inviteData s)))))
  | SendInvite_click =>
      when (inviteOpen s && negb (sendInviteDisabled s)) (handleInviteSubmit s)
  | removeMenu_close => when (isOpen (removeAnchor s)) (setRemoveAnchor None)
  | RemoveMember_click => when (isOpen (removeAnchor s)) (handleRemove s)
  end.

(** The effect hook: the list is fetched again, from the new render,
    whenever one of [page], [perPage], [orderBy], [orderDir] changed. *)
Definition useEffect (before : PageState) : M unit :=
  λ w,
    let after := view w in
    if bool_decide ((page after, perPage after, orderBy after, orderDir after)
                    = (page before, perPage before, orderBy before, orderDir before))
    then (tt, w)
    else fetchMembers after w.

Definition step (w : World) (ev : UiEvent) : World :=
  match dispatch (view w) ev with
  | Some h => exec (h ;; useEffect (view w)) w
  | None => w
  end.

(** The first render, whose effect fetches the first page. *)
Definition mount : World := exec (fetchMembers initialState) blank.

Definition run (evs : list UiEvent) : World := foldl step mount evs.

(** The requests a handler issued, given the world before and after. *)
Definition issued (before after : World) : list ApiCall :=
  drop (length (calls before)) (calls after).
End Page.

(** ** Vocabulary of the properties *)

Definition holdsOwner (m : OrganizationMemberDto) : Prop :=
  ORGANIZATION_OWNER ∈ Member.roles m.

(** Every row that holds the owner role stands before every row that does
    not. *)
Definition ownersFirst (rows : list OrganizationMemberDto) : Prop :=
  ∀ (i j : nat) a b,
    rows !! i = Some a → rows !! j = Some b →
    holdsOwner a → ¬ holdsOwner b → (i < j)%nat.

(** The role set a request carries, for the two requests that carry one. *)
Definition rolesSent (c : ApiCall) : option (list MemberRole) :=
  match c with
  | updateMemberRoles _ _ payload => Some (dto_newRoles payload)
  | inviteMember _ dto => Some (Invite.roles dto)
  | _ => None
  end.

(** The view [fetchMembers] leaves behind, by the answer it received. *)
Definition fetchMembers_view
    (res : OrganizationMembersListDto + ErrorResponseElement)
    (v : PageState) : PageState :=
  withLoading false
    match res with
    | inl res =>
        withTotal (list_total res)
          (withMembers (Array_sort ownerFirst (entries res)) (withLoading true v))
    | inr _ => withLoading true v
    end.

(** A request that carries roles carries some; a role update carries no
    owner role. *)
Definition roleRequestOk (c : ApiCall) : Prop :=
  match c with
  | updateMemberRoles _ _ payload =>
      dto_newRoles payload ≠ [] ∧ ORGANIZATION_OWNER ∉ dto_newRoles payload
  | inviteMember _ dto => Invite.roles dto ≠ []
  | _ => True
  end.

(** What holds of the page after any sequence of events. *)
Record wellFormed (w : World) : Prop := {
  wf_newRoles : ORGANIZATION_OWNER ∉ newRoles (view w);
  wf_rolesRow : ∀ m, rolesRow (view w) = Some m → ¬ holdsOwner m;
  wf_inviteRoles : Invite.roles (inviteData (view w)) ⊆ checkboxRoles;
  wf_calls : Forall roleRequestOk (calls w)
}.

(** The log of [w'] is the log of [w] followed by requests that satisfy
    [P]. *)
Definition appends (P : ApiCall → Prop) (w w' : World) : Prop :=
  ∃ l, calls w' = calls w ++ l ∧ Forall P l.

(** If the request is a role update, it carries the selection [selected],
    and that selection is not empty. *)
Definition roleUpdateFrom (selected : list MemberRole) (c : ApiCall) : Prop :=
  match c with
  | updateMemberRoles _ _ payload =>
      dto_newRoles payload = selected ∧ selected ≠ []
  | _ => True
  end.

(** ** A concrete organization

    An environment to run the page in: the acting user is an administrator
    of an organization with an owner, a plain member and two short URLs.
    Listings always succeed; the requests that change something succeed
    unless the backend is told to fail them with a given tag.  The e-mail
    pattern is cut down to the one address the scenario types in. *)
Module Scenario.
Definition olga : OrganizationMemberDto :=
  {| Member.id := 1; Member.fullName := "Olga Owner"; Member.email := "olga@acme.io";
     Member.pictureUrl := None; Member.roles := [ORGANIZATION_OWNER];
     Member.allowedAllUrls := true; Member.allowedUrls := [] |}.

Definition root : OrganizationMemberDto :=
  {| Member.id := 2; Member.fullName := "Root Admin"; Member.email := "root@acme.io";
     Member.pictureUrl := None; Member.roles := [ORGANIZATION_ADMIN];
     Member.allowedAllUrls := true; Member.allowedUrls := [] |}.

Definition bob : OrganizationMemberDto :=
  {| Member.id := 3; Member.fullName := "Bob Member"; Member.email := "bob@acme.io";
     Member.pictureUrl := None; Member.roles := [ORGANIZATION_MEMBER];
     Member.allowedAllUrls := false; Member.allowedUrls := [11] |}.

Definition carol : OrganizationMemberDto :=
  {| Member.id := 4; Member.fullName := "Carol Manager"; Member.email := "carol@acme.io";
     Member.pictureUrl := None;
     Member.roles := [ORGANIZATION_MANAGER; ORGANIZATION_URLS_MANAGER];
     Member.allowedAllUrls := true; Member.allowedUrls := [] |}.

Definition url11 : ShortUrlDto :=
  {| ShortUrl.id := 11; ShortUrl.originalUrl := "https://example.org/a" |}.
Definition url12 : ShortUrlDto :=
  {| ShortUrl.id := 12; ShortUrl.originalUrl := "https://example.org/b" |}.

(** The listing as the server sends it, sorted by name: the owner is last. *)
Definition listing : OrganizationMembersListDto :=
  {| entries := [bob; carol; root; olga]; list_total := 4 |}.

Definition answer (failure : option ServiceErrorType) : Backend :=
  λ _ c,
    match c return ApiResult c with
    | getOrganizationMembers _ _ => inl listing
    | getShortUrls _ _ => inl {| url_entries := [url11; url12] |}
    | _ =>
        match failure with
        | Some tag => inr {| errorType := tag |}
        | None => inl {| message := "ok" |}
        end
    end.

Definition organization (failure : option ServiceErrorType) : Environment :=
  {| slug := "acme";
     currentEmail := Some "root@acme.io";
     hasRole := λ r, bool_decide (r = ORGANIZATION_ADMIN);
     backend := answer failure;
     isEmail := λ v, bool_decide (v = "dana@acme.io");
     invalidEnumMessage := λ _, "Invalid enum value" |}.

Definition healthy : Environment := organization None.
Definition failing (tag : ServiceErrorType) : Environment := organization (Some tag).

(** The roles menu opened on Carol, one more role ticked. *)
Definition editCarol : list UiEvent :=
  [rolesCell_click 7%nat 2%nat; roleCheckbox_change ORGANIZATION_MEMBERS_MANAGER].

(** The roles menu opened on Carol, both of her roles unticked. *)
Definition untickCarol : list UiEvent :=
  [rolesCell_click 7%nat 2%nat; roleCheckbox_change ORGANIZATION_MANAGER;
   roleCheckbox_change ORGANIZATION_URLS_MANAGER].

(** The URLs dialog opened on Bob. *)
Definition editBobUrls : list UiEvent := [urlsLink_click 1%nat].

(** The invite dialog filled in for Dana, all URLs allowed. *)
Definition inviteDana : list UiEvent :=
  [InviteMember_click; firstName_change "Dana"; lastName_change "Doe";
   email_change "dana@acme.io"].

(** The invite dialog with the allow-all box unticked and no URL chosen. *)
Definition inviteNoUrls : list UiEvent := [InviteMember_click; inviteAllowAll_change].

(** The invite dialog where a URL was chosen before the allow-all box was
    ticked again, then filled in and sent. *)
Definition inviteAfterUnticking : list UiEvent :=
  [InviteMember_click; inviteAllowAll_change; inviteUrls_change [url11];
   inviteAllowAll_change; firstName_change "Dana"; lastName_change "Doe";
   email_change "dana@acme.io"; SendInvite_click].

(** A render in which Bob's roles are being edited and none is selected. *)
Definition nothingSelected : PageState := withRolesRow (Some bob) initialState.
End Scenario.

(** ** More of the concrete organization *)

Module Cases.
Import Scenario.

(** A backend that fails every request. *)
Definition down : Backend :=
  λ _ c,
    match c return ApiResult c with
    | getOrganizationMembers _ _ => inr {| errorType := OTHER_ERROR "UNAVAILABLE" |}
    | getShortUrls _ _ => inr {| errorType := OTHER_ERROR "UNAVAILABLE" |}
    | _ => inr {| errorType := OTHER_ERROR "UNAVAILABLE" |}
    end.

Definition unreachable : Environment :=
  {| slug := "acme";
     currentEmail := Some "root@acme.io";
     hasRole := λ r, bool_decide (r = ORGANIZATION_ADMIN);
     backend := down;
     isEmail := λ v, bool_decide (v = "dana@acme.io");
     invalidEnumMessage := λ _, "Invalid enum value" |}.

(** A listing that comes with its owner first. *)
Definition orderly : OrganizationMembersListDto :=
  {| entries := [olga; bob; carol]; list_total := 3 |}.

Definition tidy : Environment :=
  {| slug := "acme";
     currentEmail := Some "root@acme.io";
     hasRole := λ r, bool_decide (r = ORGANIZATION_ADMIN);
     backend := λ _ c,
       match c return ApiResult c with
       | getOrganizationMembers _ _ => inl orderly
       | getShortUrls _ _ => inl {| url_entries := [url11; url12] |}
       | _ => inl {| message := "ok" |}
       end;
     isEmail := λ v, bool_decide (v = "dana@acme.io");
     invalidEnumMessage := λ _, "Invalid enum value" |}.

(** The third page, the actions menu opened on Bob. *)
Definition removeBobOnPageTwo : list UiEvent :=
  [Pagination_pageChange 2; IconButton_click 9%nat 1%nat].
End Cases.

(** ** Vocabulary of the further properties *)

Global Instance ListParams_eq_dec : EqDecision ListParams.
Proof. solve_decision. Defined.

(** The rows the acting user may edit: neither an owner nor the user's own. *)
Definition editable {env : Environment} (m : OrganizationMemberDto) : Prop :=
  ¬ holdsOwner m ∧ Some (Member.email m) ≠ currentEmail.

(** The roles the invite schema lets through. *)
Definition invitableRoles : list MemberRole :=
  [ORGANIZATION_MEMBERS_MANAGER; ORGANIZATION_MANAGER;
   ORGANIZATION_URLS_MANAGER; ORGANIZATION_MEMBER].

(** What the schema asks of an invite form. *)
Definition validInvite {env : Environment} (data : InviteMemberDto) : Prop :=
  Invite.firstname data ≠ ""
  ∧ Invite.lastname data ≠ ""
  ∧ isEmail (Invite.email data) = true
  ∧ Invite.roles data ⊆ invitableRoles
  ∧ (Invite.allowedAllUrls data = true ∨ Invite.allowedUrls data ≠ []).

(** A request that changes something is within the roles of the acting
    user: members management for role updates, invites and removals, URL
    management for URL access. *)
Definition permitted {env : Environment} (c : ApiCall) : Prop :=
  match c with
  | updateMemberRoles _ _ _ | inviteMember _ _ | deleteMember _ _ =>
      canManageMembers = true
  | updateMemberUrls _ _ _ => canManageUrls = true
  | getOrganizationMembers _ _ | getShortUrls _ _ => True
  end.

(** The request is the one the render [s] stands for: it names the
    organization of the page, its target is the member the render holds for
    that kind of edit, and its body is built from the render. *)
Definition requestFrom {env : Environment} (s : PageState) (c : ApiCall) : Prop :=
  match c with
  | getOrganizationMembers org _ => org = slug
  | getShortUrls org q => org = slug ∧ q = 10000
  | updateMemberRoles org memberId payload =>
      org = slug ∧ payload = handleRolesUpdate_payload s
      ∧ ∃ m, rolesRow s = Some m ∧ memberId = Member.id m
  | updateMemberUrls org memberId dto =>
      org = slug ∧ dto = handleUrlsSave_dto s
      ∧ ∃ m, urlsMember s = Some m ∧ memberId = Member.id m
  | inviteMember org dto =>
      org = slug ∧ dto = handleInviteSubmit_dto s ∧ inviteOpen s = true
  | deleteMember org memberId =>
      org = slug ∧ ∃ m, removeRow s = Some m ∧ memberId = Member.id m
  end.

(** What holds of the view after any sequence of events: the members held
    for an edit were editable and within the roles of the acting user when
    they were picked, an open menu or dialog has its member, the roles ticked
    in the invite form do not repeat, and the form errors carry nothing for
    the URL selection. *)
Record guarded {env : Environment} (s : PageState) : Prop := {
  g_rolesRow : ∀ m, rolesRow s = Some m → canManageMembers = true ∧ editable m;
  g_urlsMember : ∀ m, urlsMember s = Some m → canManageUrls = true ∧ editable m;
  g_removeRow : ∀ m, removeRow s = Some m → canManageMembers = true ∧ editable m;
  g_inviteOpen : inviteOpen s = true → canManageMembers = true;
  g_rolesAnchor : isOpen (rolesAnchor s) = true → is_Some (rolesRow s);
  g_urlsOpen : urlsOpen s = true → is_Some (urlsMember s);
  g_removeAnchor : isOpen (removeAnchor s) = true → is_Some (removeRow s);
  g_inviteRoles : NoDup (Invite.roles (inviteData s));
  g_inviteErrors : inviteErrors s !! "allowedUrls" = None;
  g_loading : loading s = false ∧ urlsLoading s = false
}.

(** * Properties *)

(** ** Sorting with the owner comparator *)

Lemma includes_true `{EqDecision A} (l : list A) (x : A) :
  includes l x = true ↔ x ∈ l.
Proof. unfold includes. apply bool_decide_eq_true. Qed.

Lemma includes_false `{EqDecision A} (l : list A) (x : A) :
  includes l x = false ↔ x ∉ l.
Proof. unfold includes. apply bool_decide_eq_false. Qed.

Lemma ownerFirst_owner a b : holdsOwner a → (ownerFirst a b ≤ 0)%Z.
Proof.
  unfold holdsOwner, ownerFirst. intros Ha.
  apply includes_true in Ha. rewrite Ha.
  destruct (includes (Member.roles b) ORGANIZATION_OWNER); lia.
Qed.

Lemma ownerFirst_other a b :
  ¬ holdsOwner a → (ownerFirst a b ≤ 0)%Z ↔ ¬ holdsOwner b.
Proof.
  unfold holdsOwner, ownerFirst. intros Ha.
  apply includes_false in Ha. rewrite Ha.
  destruct (includes (Member.roles b) ORGANIZATION_OWNER) eqn:Hb.
  - apply includes_true in Hb. split; [lia | tauto].
  - apply includes_false in Hb. split; [tauto | lia].
Qed.

Lemma sort_insert_owner a l :
  holdsOwner a → sort_insert ownerFirst a l = a :: l.
Proof.
  intros Ha. destruct l as [|b l]; [done|]. simpl.
  rewrite bool_decide_eq_true_2; [done|]. by apply ownerFirst_owner.
Qed.

Lemma sort_insert_other a owners others :
  ¬ holdsOwner a → Forall holdsOwner owners → Forall (λ b, ¬ holdsOwner b) others →
  sort_insert ownerFirst a (owners ++ others) = owners ++ a :: others.
Proof.
  intros Ha Howners Hothers. induction Howners as [|b owners Hb _ IH]; simpl.
  - destruct Hothers as [|b others Hb _]; [done|]. simpl.
    rewrite bool_decide_eq_true_2; [done|]. by apply ownerFirst_other.
  - rewrite bool_decide_eq_false_2, IH; [done|].
    rewrite ownerFirst_other by done. tauto.
Qed.

(** The sort of [fetchMembers] is the stable partition of the entries into
    the owners and the others. *)
Lemma Array_sort_ownerFirst l :
  Array_sort ownerFirst l = filter holdsOwner l ++ filter (λ b, ¬ holdsOwner b) l.
Proof.
  induction l as [|a l IH]; [done|].
  unfold Array_sort in *. simpl. rewrite IH.
  destruct (decide (holdsOwner a)) as [Ha|Ha].
  - rewrite sort_insert_owner by done.
    rewrite (filter_cons_True holdsOwner) by done.
    rewrite filter_cons_False by tauto. done.
  - rewrite sort_insert_other; try done.
    + rewrite filter_cons_False by done. by rewrite filter_cons_True.
    + apply Forall_forall. intros x Hx. by apply list_elem_of_filter in Hx as [? _].
    + apply Forall_forall. intros x Hx. by apply list_elem_of_filter in Hx as [? _].
Qed.

Lemma Array_sort_ownerFirst_perm l : Array_sort ownerFirst l ≡ₚ l.
Proof.
  rewrite Array_sort_ownerFirst. induction l as [|a l IH]; [done|].
  destruct (decide (holdsOwner a)) as [Ha|Ha].
  - rewrite (filter_cons_True holdsOwner) by done.
    rewrite filter_cons_False by tauto. simpl. by rewrite IH.
  - rewrite filter_cons_False by done. rewrite filter_cons_True by done.
    rewrite <- Permutation_middle. by rewrite IH.
Qed.

Lemma Array_sort_ownersFirst l : ownersFirst (Array_sort ownerFirst l).
Proof.
  rewrite Array_sort_ownerFirst. intros i j a b Hi Hj Ha Hb.
  apply lookup_app_Some in Hi as [Hi|[Hlen Hi]].
  - apply lookup_app_Some in Hj as [Hj|[Hlen _]].
    + apply list_elem_of_lookup_2, list_elem_of_filter in Hj as [? _]. done.
    + apply lookup_lt_Some in Hi. lia.
  - apply list_elem_of_lookup_2, list_elem_of_filter in Hi as [? _]. done.
Qed.

(** ** The handlers, one by one *)

(** Unfolds the monad and the setters of a handler applied to a world. *)
Ltac unfold_handler :=
  unfold exec, bind, ret, toast, request,
    setMembers, setPage, setPerPage, setTotal, setOrderBy, setOrderDir, setLoading,
    setRolesAnchor, setRolesRow, setNewRoles, setUrlsOpen, setUrlsMember,
    setAllowedAll, setSelectedUrls, setAllUrls, setUrlsLoading, setInviteOpen,
    setInviteData, setInviteErrors, setRemoveAnchor, setRemoveRow,
    setNewRoles_fn, setInviteData_fn, update in *.

Lemma issued_app (w w' : World) (l : list ApiCall) :
  calls w' = calls w ++ l → issued w w' = l.
Proof. unfold issued. intros ->. by rewrite drop_app_length. Qed.

Section Handlers.
Context {env : Environment}.

Lemma fetchMembers_run s w :
  let c := getOrganizationMembers slug (fetchMembers_query s) in
  let res := backend (calls w) c in
  fetchMembers s w =
    (tt, {| view := fetchMembers_view res (view w);
            calls := calls w ++ [c];
            toasts := match res with
                      | inl _ => toasts w
                      | inr _ =>
                          toasts w ++ [error "Could not get members of the organization"]
                      end |}).
Proof.
  unfold fetchMembers, fetchMembers_view. unfold_handler. simpl.
  destruct (backend _ _) as [res|err]; done.
Qed.

(** C1.  Whatever page, page size, sort field and direction the render asks
    for, when the listing request succeeds the rows [fetchMembers] stores
    are the entries of the response, rearranged so that every member
    holding the owner role stands before every member that does not. *)
Theorem fetchMembers_owner_first (s : PageState) (w : World)
    (res : OrganizationMembersListDto) :
  backend (calls w) (getOrganizationMembers slug (fetchMembers_query s)) = inl res →
  let rows := members (view (exec (fetchMembers s) w)) in
  rows ≡ₚ entries res ∧ ownersFirst rows.
Proof.
  intros Hres. unfold exec. rewrite fetchMembers_run. simpl. rewrite Hres. simpl.
  split; [apply Array_sort_ownerFirst_perm | apply Array_sort_ownersFirst].
Qed.

(** C10.  A click on a sort header turns an ascending sort on the clicked
    column into a descending one, makes the sort ascending in every other
    case, makes the clicked column the sort column, and goes back to the
    first page. *)
Theorem handleSort_toggles (s : PageState) (property : OrderBy) (w : World) :
  let s' := view (exec (handleSort s property) w) in
  (orderBy s = property ∧ orderDir s = asc → orderDir s' = desc)
  ∧ (¬ (orderBy s = property ∧ orderDir s = asc) → orderDir s' = asc)
  ∧ orderBy s' = property
  ∧ page s' = 0.
Proof.
  unfold handleSort. unfold_handler. simpl. repeat split.
  - intros [-> ->]. by rewrite !bool_decide_eq_true_2.
  - intros Hnot. destruct (decide (orderBy s = property)) as [Hby|Hby].
    + rewrite (bool_decide_eq_true_2 _ Hby). simpl.
      rewrite bool_decide_eq_false_2; [done|]. tauto.
    + by rewrite (bool_decide_eq_false_2 _ Hby).
Qed.

(** *** Rows of the acting user and of owners *)

Lemma rowFlags_disabled (m : OrganizationMemberDto) :
  Some (Member.email m) = currentEmail ∨ holdsOwner m →
  isDisabled (rowFlags m) = true.
Proof.
  intros [Hself|Howner]; simpl.
  - by rewrite (bool_decide_eq_true_2 _ Hself).
  - apply includes_true in Howner. rewrite Howner. apply orb_true_r.
Qed.

(** C5.  For a member that is the acting user or holds the owner role, the
    two entry handlers return without changing anything (no menu or dialog
    opens, no request goes out), and the row is rendered without its edit
    controls: default cursor and no expand icon on the roles cell, whose
    click handler does nothing, plain text instead of the link in the URLs
    cell, and no button in the actions cell. *)
Theorem self_and_owner_rows_inert (s : PageState) (m : OrganizationMemberDto) :
  Some (Member.email m) = currentEmail ∨ holdsOwner m →
  (∀ e w, exec (handleRolesClick s e m) w = w)
  ∧ (∀ w, exec (openUrlsDialog s m) w = w)
  ∧ cursor (renderRow s m) = "default"
  ∧ ExpandMoreIcon (renderRow s m) = false
  ∧ (∀ e w, exec (rolesCell_onClick (renderRow s m) e) w = w)
  ∧ (∃ text, urlsCell (renderRow s m) = PlainText text)
  ∧ Link_onClick (renderRow s m) = None
  ∧ IconButton (renderRow s m) = false.
Proof.
  intros Hrow. pose proof (rowFlags_disabled m Hrow) as Hdis.
  assert (Hor : ∀ b,
    b || bool_decide (Some (Member.email m) = currentEmail)
      || includes (Member.roles m) ORGANIZATION_OWNER = true).
  { intros b. simpl in Hdis. rewrite <- orb_assoc, Hdis. apply orb_true_r. }
  unfold renderRow. simpl in *. rewrite Hdis. simpl. rewrite !andb_false_r.
  repeat split; try done.
  - intros e w. unfold handleRolesClick. by rewrite Hor.
  - intros w. unfold openUrlsDialog. by rewrite Hor.
  - eauto.
Qed.

(** *** Role payloads *)

Lemma handleRolesUpdate_payload_spec (s : PageState) :
  dto_newRoles (handleRolesUpdate_payload s) ≠ []
  ∧ (newRoles s = [] → dto_newRoles (handleRolesUpdate_payload s) = [ORGANIZATION_MEMBER])
  ∧ (newRoles s ≠ [] → dto_newRoles (handleRolesUpdate_payload s) = newRoles s).
Proof.
  unfold handleRolesUpdate_payload. simpl.
  destruct (newRoles s) as [|r rs]; simpl; repeat split; done.
Qed.

Lemma handleInviteSubmit_dto_spec (s : PageState) :
  Invite.roles (handleInviteSubmit_dto s) ≠ []
  ∧ (Invite.roles (inviteData s) = [] →
     Invite.roles (handleInviteSubmit_dto s) = [ORGANIZATION_MEMBER])
  ∧ (Invite.roles (inviteData s) ≠ [] →
     Invite.roles (handleInviteSubmit_dto s) = Invite.roles (inviteData s))
  ∧ Invite.allowedAllUrls (handleInviteSubmit_dto s)
    = Invite.allowedAllUrls (inviteData s)
  ∧ Invite.allowedUrls (handleInviteSubmit_dto s) = Invite.allowedUrls (inviteData s).
Proof.
  unfold handleInviteSubmit_dto. destruct (inviteData s) as [fn ln em all urls rs].
  simpl. destruct rs as [|r rs]; simpl; repeat split; done.
Qed.

(** The requests of [handleRolesUpdate]: none without a row, else the
    update, followed by the listing when the update succeeded. *)
Lemma handleRolesUpdate_issued (s : PageState) (w : World) :
  issued w (exec (handleRolesUpdate s) w) =
    match rolesRow s with
    | None => []
    | Some row =>
        let c := updateMemberRoles slug (Member.id row) (handleRolesUpdate_payload s) in
        match backend (calls w) c with
        | inl _ => [c; getOrganizationMembers slug (fetchMembers_query s)]
        | inr _ => [c]
        end
    end.
Proof.
  apply issued_app. unfold handleRolesUpdate, handleRolesClose.
  destruct (rolesRow s) as [row|]; unfold_handler; simpl.
  - destruct (backend _ _) as [msg|err]; simpl; [|done].
    rewrite fetchMembers_run. simpl. by rewrite <- app_assoc.
  - by rewrite app_nil_r.
Qed.

(** The requests of [handleInviteSubmit]: none when the form does not
    parse, else the invite, followed by the listing when it succeeded. *)
Lemma handleInviteSubmit_issued (s : PageState) (w : World) :
  issued w (exec (handleInviteSubmit s) w) =
    match safeParse inviteSchema (inviteData s) with
    | inr _ => []
    | inl _ =>
        let c := inviteMember slug (handleInviteSubmit_dto s) in
        match backend (calls w) c with
        | inl _ => [c; getOrganizationMembers slug (fetchMembers_query s)]
        | inr _ => [c]
        end
    end.
Proof.
  apply issued_app. unfold handleInviteSubmit, handleInviteClose.
  destruct (safeParse _ _) as [parsed|errors]; unfold_handler; simpl.
  - destruct (backend _ _) as [msg|err]; simpl.
    + rewrite fetchMembers_run. simpl. by rewrite <- app_assoc.
    + by destruct (bool_decide _).
  - by rewrite app_nil_r.
Qed.

(** *** Saving an edit *)

(** C7.  When the role update, or the URL-access update, comes back with a
    success, the handler goes on to request the member list again and
    closes its edit surface (the roles menu loses its anchor, the URLs
    dialog its open flag); the rows it leaves are the ones of that second
    answer, or the old rows if the listing failed, never rows patched
    locally.  When the update comes back with a tagged error, the update
    is the only request issued and the view state stays as it was. *)
Theorem update_success_refetches_and_closes (s : PageState) (w : World) :
  let fetch := getOrganizationMembers slug (fetchMembers_query s) in
  let rowsAfter (answer : OrganizationMembersListDto + ErrorResponseElement) :=
    match answer with
    | inl res => Array_sort ownerFirst (entries res)
    | inr _ => members (view w)
    end in
  (∀ row, rolesRow s = Some row →
     let c := updateMemberRoles slug (Member.id row) (handleRolesUpdate_payload s) in
     let w' := exec (handleRolesUpdate s) w in
     match backend (calls w) c with
     | inl _ =>
         issued w w' = [c; fetch]
         ∧ rolesAnchor (view w') = None
         ∧ members (view w') = rowsAfter (backend (calls w ++ [c]) fetch)
     | inr _ => issued w w' = [c] ∧ view w' = view w
     end)
  ∧ (∀ member, urlsMember s = Some member →
     let c := updateMemberUrls slug (Member.id member) (handleUrlsSave_dto s) in
     let w' := exec (handleUrlsSave s) w in
     match backend (calls w) c with
     | inl _ =>
         issued w w' = [c; fetch]
         ∧ urlsOpen (view w') = false
         ∧ members (view w') = rowsAfter (backend (calls w ++ [c]) fetch)
     | inr _ => issued w w' = [c] ∧ view w' = view w
     end).
Proof.
  split.
  - intros row Hrow. simpl. rewrite handleRolesUpdate_issued, Hrow. simpl.
    unfold handleRolesUpdate, handleRolesClose. rewrite Hrow.
    unfold_handler. simpl.
    destruct (backend (calls w) _) as [msg|err]; simpl; [|done].
    rewrite fetchMembers_run. simpl.
    destruct (backend (calls w ++ _) _) as [res|err]; done.
  - intros member Hmember. simpl.
    unfold issued, handleUrlsSave. rewrite Hmember.
    unfold_handler. simpl.
    destruct (backend (calls w) _) as [msg|err]; simpl.
    + rewrite fetchMembers_run. simpl.
      rewrite <- app_assoc, drop_app_length.
      destruct (backend (calls w ++ _) _) as [res|err]; done.
    + by rewrite drop_app_length.
Qed.

(** *** A failed invite *)

(** C8.  When the form parses and the invite comes back with an error, one
    toast is raised: the member-already-exists message for the tag
    [ENTITY_ALREADY_EXISTS], the generic invite-failure message for every
    other tag; and the two messages differ. *)
Theorem invite_error_message (s : PageState) (w : World)
    (parsed : InviteMemberDto) (res : ErrorResponseElement) :
  safeParse inviteSchema (inviteData s) = inl parsed →
  backend (calls w) (inviteMember slug (handleInviteSubmit_dto s)) = inr res →
  let shown := toasts (exec (handleInviteSubmit s) w) in
  (errorType res = ENTITY_ALREADY_EXISTS →
     shown = toasts w ++ [error "Member with this email already exists"])
  ∧ (errorType res ≠ ENTITY_ALREADY_EXISTS →
     shown = toasts w ++ [error "Could not invite new member"])
  ∧ "Member with this email already exists" ≠ "Could not invite new member".
Proof.
  intros Hparsed Hres. unfold handleInviteSubmit. rewrite Hparsed.
  unfold_handler. simpl. rewrite Hres. repeat split.
  - intros Htag. by rewrite (bool_decide_eq_true_2 _ Htag).
  - intros Htag. by rewrite (bool_decide_eq_false_2 _ Htag).
  - done.
Qed.

(** *** The schema on a form without URLs *)

Lemma mergeReturns_valid (rs : list ParseReturn) :
  Forall (λ r, r = (valid, [])) rs → mergeReturns rs = (valid, []).
Proof.
  unfold mergeReturns. induction 1 as [|r rs -> _ IH]; [done|].
  injection IH as Hstatus Hissues.
  rewrite !fmap_cons. cbn [foldr concat fst snd]. by rewrite Hstatus, Hissues.
Qed.

Lemma z_array_valid {A} (item : Schema A) (at_path : list PathSegment) (v : list A) :
  (∀ i x, x ∈ v → item (at_path ++ [index i]) x = (valid, [])) →
  z_array item at_path v = (valid, []).
Proof.
  intros Hitem. apply mergeReturns_valid, Forall_lookup. intros i r.
  rewrite list_lookup_imap. destruct (v !! i) as [x|] eqn:Hx; [|done].
  simpl. intros [= <-]. apply Hitem. by eapply list_elem_of_lookup_2.
Qed.

Lemma z_string_nonempty_status at_path v : (z_string_nonempty at_path v).1 ≠ aborted.
Proof. unfold z_string_nonempty. by destruct (bool_decide _). Qed.

Lemma z_string_email_status at_path v : (z_string_email at_path v).1 ≠ aborted.
Proof. unfold z_string_email. by destruct (isEmail v). Qed.

(** With roles taken from the checkboxes the object never aborts. *)
Lemma inviteObject_status (data : InviteMemberDto) :
  Invite.roles data ⊆ checkboxRoles → (inviteObject [] data).1 ≠ aborted.
Proof.
  intros Hroles. unfold inviteObject.
  rewrite (z_array_valid (z_enum _)), (z_array_valid z_number); [| done |].
  - pose proof (z_string_nonempty_status [key "firstname"] (Invite.firstname data)).
    pose proof (z_string_nonempty_status [key "lastname"] (Invite.lastname data)).
    pose proof (z_string_email_status [key "email"] (Invite.email data)).
    simpl.
    destruct (z_string_nonempty _ (Invite.firstname data)) as [[] ?];
      destruct (z_string_nonempty _ (Invite.lastname data)) as [[] ?];
      destruct (z_string_email _ (Invite.email data)) as [[] ?]; done.
  - intros i r Hr. apply Hroles in Hr. unfold checkboxRoles in Hr.
    rewrite !elem_of_cons, elem_of_nil in Hr.
    by destruct Hr as [->|[->|[->|[]]]].
Qed.

Lemma safeParse_missing_urls (data : InviteMemberDto) :
  Invite.allowedAllUrls data = false → Invite.allowedUrls data = [] →
  Invite.roles data ⊆ checkboxRoles →
  ∃ issues,
    safeParse inviteSchema data =
      inr (issues ++ [{| path := [key "allowedUrls"];
                         issue_message := "Select at least one URL or Allow All URLs" |}]).
Proof.
  intros Hall Hurls Hroles. pose proof (inviteObject_status data Hroles) as Hstatus.
  unfold safeParse, inviteSchema, refine.
  destruct (inviteObject [] data) as [status issues]. exists issues.
  rewrite Hall, Hurls. by destruct status.
Qed.

(** Submitting a form that allows no URL at all: the errors gain the entry
    of the [allowedUrls] field and nothing is requested or shown. *)
Lemma handleInviteSubmit_missing_urls (s : PageState) (w : World) :
  Invite.allowedAllUrls (inviteData s) = false →
  Invite.allowedUrls (inviteData s) = [] →
  Invite.roles (inviteData s) ⊆ checkboxRoles →
  let w' := exec (handleInviteSubmit s) w in
  inviteErrors (view w') !! "allowedUrls"
    = Some "Select at least one URL or Allow All URLs"
  ∧ calls w' = calls w
  ∧ toasts w' = toasts w.
Proof.
  intros Hall Hurls Hroles.
  destruct (safeParse_missing_urls _ Hall Hurls Hroles) as [issues Hparse].
  unfold handleInviteSubmit. rewrite Hparse. unfold_handler. simpl.
  rewrite foldl_app. simpl. by rewrite lookup_insert_eq.
Qed.

(** *** The URL list under the allow-all flag *)

(** The save of the URLs dialog sends no list with the flag set. *)
Lemma handleUrlsSave_dto_exclusive (s : PageState) :
  dto_allowedAllUrls (handleUrlsSave_dto s) = true →
  newUrlsIds (handleUrlsSave_dto s) = [].
Proof. unfold handleUrlsSave_dto. simpl. by intros ->. Qed.

(** The URLs dialog of a member with the flag set opens on no selection. *)
Lemma openUrlsDialog_selection (s : PageState) (member : OrganizationMemberDto)
    (w : World) :
  let w' := exec (openUrlsDialog s member) w in
  urlsOpen (view w') = true → urlsOpen (view w) = false →
  Member.allowedAllUrls member = true →
  selectedUrls (view w') = [] ∧ allowedAll (view w') = true.
Proof.
  unfold openUrlsDialog. destruct (_ || _ || _).
  - unfold exec, ret. simpl. congruence.
  - unfold_handler. simpl. intros _ _ ->.
    by destruct (backend _ _) as [res|err].
Qed.
End Handlers.

(** ** The page under any sequence of events *)

Lemma exec_bind {A} (m : M A) (k : M unit) (w : World) :
  exec (m ;; k) w = exec k (exec m w).
Proof. unfold exec, bind. by destruct (m w). Qed.

Ltac solve_wellFormed :=
  constructor; simpl; rewrite ?Forall_app, ?Forall_cons, ?Forall_nil; simpl;
  try done; auto.

Section Reachability.
Context {env : Environment}.

Lemma fetchMembers_wellFormed s w :
  wellFormed w → wellFormed (exec (fetchMembers s) w).
Proof.
  intros [? ? ? ?]. unfold exec. rewrite fetchMembers_run. simpl.
  unfold fetchMembers_view. destruct (backend _ _); solve_wellFormed.
Qed.

Lemma useEffect_wellFormed before w :
  wellFormed w → wellFormed (exec (useEffect before) w).
Proof.
  intros Hw. unfold exec, useEffect. destruct (bool_decide _); [done|].
  by apply fetchMembers_wellFormed.
Qed.

(** Handlers that leave the selections alone and send no roles. *)
Ltac frame_handler :=
  intros [? ? ? ?]; unfold_handler; simpl;
  repeat match goal with
         | |- context [backend ?l ?c] => destruct (backend l c); simpl
         | |- context [fetchMembers ?s ?w] => rewrite (fetchMembers_run s w); simpl
         end;
  unfold fetchMembers_view;
  repeat match goal with
         | |- context [backend ?l ?c] => destruct (backend l c); simpl
         end;
  solve_wellFormed.

Lemma handleInviteOpen_wellFormed w :
  wellFormed w → wellFormed (exec handleInviteOpen w).
Proof. unfold handleInviteOpen. frame_handler. Qed.

Lemma handleSort_wellFormed s property w :
  wellFormed w → wellFormed (exec (handleSort s property) w).
Proof. unfold handleSort. frame_handler. Qed.

Lemma handleRemoveClick_wellFormed e m w :
  wellFormed w → wellFormed (exec (handleRemoveClick e m) w).
Proof. unfold handleRemoveClick. frame_handler. Qed.

Lemma handleRemove_wellFormed s w :
  wellFormed w → wellFormed (exec (handleRemove s) w).
Proof. unfold handleRemove. destruct (removeRow s); frame_handler. Qed.

Lemma openUrlsDialog_wellFormed s m w :
  wellFormed w → wellFormed (exec (openUrlsDialog s m) w).
Proof. unfold openUrlsDialog. destruct (_ || _ || _); frame_handler. Qed.

Lemma handleUrlsSave_wellFormed s w :
  wellFormed w → wellFormed (exec (handleUrlsSave s) w).
Proof. unfold handleUrlsSave. destruct (urlsMember s); frame_handler. Qed.

Lemma handleRolesClose_wellFormed w :
  wellFormed w → wellFormed (exec handleRolesClose w).
Proof. unfold handleRolesClose. frame_handler. Qed.

(** Opening the roles menu selects the roles of a member that is no
    owner, the owner role filtered out. *)
Lemma handleRolesClick_wellFormed s e m w :
  wellFormed w → wellFormed (exec (handleRolesClick s e m) w).
Proof.
  unfold handleRolesClick.
  destruct (includes (Member.roles m) ORGANIZATION_OWNER) eqn:Howner.
  - rewrite orb_true_r. frame_handler.
  - apply includes_false in Howner.
    destruct (_ || _ || _); [frame_handler|].
    intros [? ? ? ?]. unfold_handler. solve_wellFormed.
    + rewrite list_elem_of_filter. tauto.
    + by intros ? [= <-].
Qed.

(** A checkbox of the roles menu adds or removes its own role. *)
Lemma handleRoleToggle_wellFormed role w :
  role ∈ checkboxRoles →
  wellFormed w → wellFormed (exec (handleRoleToggle role) w).
Proof.
  intros Hrole [Hnew ? ? ?]. unfold handleRoleToggle. unfold_handler.
  solve_wellFormed. destruct (includes _ role).
  - rewrite list_elem_of_filter. tauto.
  - rewrite elem_of_app, list_elem_of_singleton. intros [?| <-]; [done|].
    unfold checkboxRoles in Hrole. rewrite !elem_of_cons, elem_of_nil in Hrole.
    by destruct Hrole as [?|[?|[?|[]]]].
Qed.

(** The update sends the selection of its render. *)
Lemma handleRolesUpdate_wellFormed s w :
  ORGANIZATION_OWNER ∉ newRoles s →
  wellFormed w → wellFormed (exec (handleRolesUpdate s) w).
Proof.
  intros Hs. unfold handleRolesUpdate, handleRolesClose.
  destruct (rolesRow s) as [row|]; [|frame_handler].
  destruct (handleRolesUpdate_payload_spec s) as (Hne & Hempty & Hsome).
  assert (ORGANIZATION_OWNER ∉ dto_newRoles (handleRolesUpdate_payload s)).
  { destruct (newRoles s) as [|r rs] eqn:Hsel.
    - rewrite Hempty by done. by intros [= ]%list_elem_of_singleton.
    - rewrite Hsome by done. done. }
  frame_handler; done.
Qed.

Lemma handleInviteChange_wellFormed field w :
  (∀ value, field = roles value → value ⊆ checkboxRoles) →
  wellFormed w → wellFormed (exec (handleInviteChange field) w).
Proof.
  intros Hfield [? ? Hinv ?]. unfold handleInviteChange. unfold_handler.
  solve_wellFormed. destruct (inviteData (view w)), field; simpl in *; eauto.
Qed.

Lemma handleInviteSubmit_wellFormed s w :
  wellFormed w → wellFormed (exec (handleInviteSubmit s) w).
Proof.
  unfold handleInviteSubmit, handleInviteClose.
  destruct (handleInviteSubmit_dto_spec s) as (Hne & _).
  destruct (safeParse _ _); [|frame_handler].
  intros [? ? ? ?]; unfold_handler; simpl.
  destruct (backend _ _); simpl.
  - rewrite fetchMembers_run. simpl. unfold fetchMembers_view.
    destruct (backend _ _); solve_wellFormed; by intros r Hr%elem_of_nil.
  - destruct (bool_decide _); solve_wellFormed.
Qed.

Lemma when_Some (rendered : bool) (h h' : M unit) :
  when rendered h = Some h' → rendered = true ∧ h' = h.
Proof. unfold when. destruct rendered; [|done]. by intros [= <-]. Qed.

(** Whatever handler an event reaches keeps the page well formed. *)
Lemma dispatch_wellFormed w ev h :
  wellFormed w → dispatch (view w) ev = Some h → wellFormed (exec h w).
Proof.
  intros Hw Hd. destruct ev; simpl in Hd;
    repeat match type of Hd with
           | context [members ?s !! ?row] =>
               destruct (members s !! row) as [m|]; simpl in Hd; [|done]
           | context [(if ?b then Some _ else None) ≫= _] =>
               destruct b; simpl in Hd; [|done]
           end;
    apply when_Some in Hd as [Hrendered ->].
  - by apply handleInviteOpen_wellFormed.
  - by apply handleSort_wellFormed.
  - destruct (_ && _); [by apply handleRolesClick_wellFormed | done].
  - by apply openUrlsDialog_wellFormed.
  - by apply handleRemoveClick_wellFormed.
  - revert Hw. frame_handler.
  - revert Hw. frame_handler.
  - by apply handleRolesClose_wellFormed.
  - apply handleRoleToggle_wellFormed; [|done].
    apply andb_true_iff in Hrendered as [[_ Hrole]%andb_true_iff _].
    by apply includes_true in Hrole.
  - apply handleRolesUpdate_wellFormed; [apply Hw | done].
  - revert Hw. frame_handler.
  - revert Hw. frame_handler.
  - revert Hw. frame_handler.
  - by apply handleUrlsSave_wellFormed.
  - revert Hw. unfold handleInviteClose. frame_handler.
  - by apply handleInviteChange_wellFormed.
  - by apply handleInviteChange_wellFormed.
  - by apply handleInviteChange_wellFormed.
  - by apply handleInviteChange_wellFormed.
  - by apply handleInviteChange_wellFormed.
  - apply handleInviteChange_wellFormed; [|done]. intros value [= <-].
    apply andb_true_iff in Hrendered as [_ Hrole%includes_true].
    pose proof (wf_inviteRoles w Hw) as Hinv.
    destruct (negb _); intros r.
    + rewrite elem_of_app, list_elem_of_singleton. intros [Hr| ->]; auto.
    + rewrite list_elem_of_filter. intros [_ Hr]. auto.
  - by apply handleInviteSubmit_wellFormed.
  - revert Hw. frame_handler.
  - by apply handleRemove_wellFormed.
Qed.

Lemma step_wellFormed w ev : wellFormed w → wellFormed (step w ev).
Proof.
  intros Hw. unfold step. destruct (dispatch (view w) ev) as [h|] eqn:Hd; [|done].
  rewrite exec_bind. apply useEffect_wellFormed. by eapply dispatch_wellFormed.
Qed.

Lemma mount_wellFormed : wellFormed mount.
Proof.
  apply fetchMembers_wellFormed. constructor; simpl; try done.
  - by intros ?%elem_of_nil.
  - by intros r Hr%elem_of_nil.
Qed.

Lemma foldl_step_wellFormed evs w :
  wellFormed w → wellFormed (foldl step w evs).
Proof.
  revert w. induction evs as [|ev evs IH]; intros w Hw; [done|].
  simpl. by apply IH, step_wellFormed.
Qed.

(** Every state the page can reach is well formed. *)
Lemma run_wellFormed evs : wellFormed (run evs).
Proof. apply foldl_step_wellFormed, mount_wellFormed. Qed.

(** *** The invite form *)

(** C2.  In any state the page can reach, submitting the invite form with
    the allow-all flag off and no URL selected is turned down by the
    schema: the form errors carry the message of the [allowedUrls] field,
    and no request at all is issued. *)
Theorem invite_without_urls_rejected (evs : list UiEvent) :
  Invite.allowedAllUrls (inviteData (view (run evs))) = false →
  Invite.allowedUrls (inviteData (view (run evs))) = [] →
  let w' := exec (handleInviteSubmit (view (run evs))) (run evs) in
  inviteErrors (view w') !! "allowedUrls"
    = Some "Select at least one URL or Allow All URLs"
  ∧ issued (run evs) w' = [].
Proof.
  intros Hall Hurls.
  destruct (handleInviteSubmit_missing_urls (view (run evs)) (run evs) Hall Hurls)
    as (Herr & Hcalls & _).
  { apply run_wellFormed. }
  split; [done|]. apply issued_app. simpl in Hcalls. by rewrite Hcalls, app_nil_r.
Qed.

(** *** Role sets on the wire *)

(** C3.  The role set of a role-update request, and of an invite request,
    is never empty, and it is exactly the base member role whenever the
    selection it is built from is empty: so for the requests of the two
    handlers, in whatever state they run, and so for every request in the
    log of any run of the page. *)
Theorem role_sets_never_empty :
  (∀ s w c rs,
     c ∈ issued w (exec (handleRolesUpdate s) w) → rolesSent c = Some rs →
     rs ≠ [] ∧ (newRoles s = [] → rs = [ORGANIZATION_MEMBER]))
  ∧ (∀ s w c rs,
     c ∈ issued w (exec (handleInviteSubmit s) w) → rolesSent c = Some rs →
     rs ≠ [] ∧ (Invite.roles (inviteData s) = [] → rs = [ORGANIZATION_MEMBER]))
  ∧ (∀ evs c rs, c ∈ calls (run evs) → rolesSent c = Some rs → rs ≠ []).
Proof.
  split; [|split].
  - intros s w c rs. rewrite handleRolesUpdate_issued.
    destruct (handleRolesUpdate_payload_spec s) as (Hne & Hempty & _).
    destruct (rolesRow s) as [row|]; simpl; [|by intros ?%elem_of_nil].
    destruct (backend _ _); rewrite !elem_of_cons, elem_of_nil;
      intros Hc Hrs; destruct Hc as [->|Hc]; simpl in Hrs;
      try destruct Hc as [->|[]]; try done; by injection Hrs as <-.
  - intros s w c rs. rewrite handleInviteSubmit_issued.
    destruct (handleInviteSubmit_dto_spec s) as (Hne & Hempty & _).
    destruct (safeParse _ _); simpl; [|by intros ?%elem_of_nil].
    destruct (backend _ _); rewrite !elem_of_cons, elem_of_nil;
      intros Hc Hrs; destruct Hc as [->|Hc]; simpl in Hrs;
      try destruct Hc as [->|[]]; try done; by injection Hrs as <-.
  - intros evs c rs Hc Hrs.
    pose proof (wf_calls _ (run_wellFormed evs)) as Hcalls.
    rewrite Forall_forall in Hcalls. apply Hcalls in Hc.
    destruct c; simpl in *; try done; injection Hrs as <-; tauto.
Qed.

(** *** The owner role and the roles menu *)

(** C4.  The roles menu never touches the owner role.  Opening it, when it
    opens at all, selects the roles of the member with the owner role
    filtered out; the roles offered as checkboxes do not include the owner
    role; and so, in any run of the page, no role-update request carries
    the owner role, and the member whose roles are being edited is never
    an owner. *)
Theorem owner_role_never_edited :
  (∀ s e m w,
     let w' := exec (handleRolesClick s e m) w in
     w' = w
     ∨ (rolesRow (view w') = Some m
        ∧ newRoles (view w')
          = filter (λ r, r ≠ ORGANIZATION_OWNER) (Member.roles m)))
  ∧ (ORGANIZATION_OWNER ∉ checkboxRoles)
  ∧ (∀ evs org memberId payload,
     updateMemberRoles org memberId payload ∈ calls (run evs) →
     ORGANIZATION_OWNER ∉ dto_newRoles payload)
  ∧ (∀ evs m, rolesRow (view (run evs)) = Some m → ¬ holdsOwner m).
Proof.
  repeat split.
  - intros s e m w. unfold handleRolesClick.
    destruct (_ || _ || _); [by left | right]. by unfold_handler.
  - unfold checkboxRoles. rewrite !elem_of_cons, elem_of_nil.
    by intros [?|[?|[?|[]]]].
  - intros evs org memberId payload Hc.
    pose proof (wf_calls _ (run_wellFormed evs)) as Hcalls.
    rewrite Forall_forall in Hcalls. apply Hcalls in Hc. simpl in Hc. tauto.
  - intros evs. apply (wf_rolesRow _ (run_wellFormed evs)).
Qed.

(** *** The Update Roles button *)

Lemma appends_trans P w1 w2 w3 :
  appends P w1 w2 → appends P w2 w3 → appends P w1 w3.
Proof.
  intros (l1 & H1 & HP1) (l2 & H2 & HP2). exists (l1 ++ l2).
  rewrite H2, H1, app_assoc. split; [done|]. by apply Forall_app.
Qed.

Ltac frame_calls :=
  unfold appends; unfold_handler; simpl;
  repeat match goal with
         | |- context [backend ?l ?c] => destruct (backend l c); simpl
         | |- context [fetchMembers ?s ?w] => rewrite (fetchMembers_run s w); simpl
         | |- context [if ?b then _ else _] => destruct b; simpl
         end;
  rewrite <- ?app_assoc;
  first [ by (exists []; rewrite app_nil_r; split; [done | constructor])
        | by (eexists; split; [reflexivity | repeat constructor]) ].

Lemma useEffect_appends P before w :
  (∀ org params, P (getOrganizationMembers org params)) →
  appends P w (exec (useEffect before) w).
Proof.
  intros HP. unfold exec, useEffect. destruct (bool_decide _).
  - exists []. by rewrite app_nil_r.
  - rewrite fetchMembers_run. simpl. eexists. split; [done|]. by constructor.
Qed.

(** A click on an enabled Update Roles button sends the selection shown,
    which is not empty; no other event sends a role update. *)
Lemma dispatch_appends w ev h :
  dispatch (view w) ev = Some h →
  appends (roleUpdateFrom (newRoles (view w))) w (exec h w).
Proof.
  intros Hd. destruct ev; simpl in Hd;
    repeat match type of Hd with
           | context [members ?s !! ?row] =>
               destruct (members s !! row) as [m|]; simpl in Hd; [|done]
           | context [(if ?b then Some _ else None) ≫= _] =>
               destruct b; simpl in Hd; [|done]
           end;
    apply when_Some in Hd as [Hrendered ->].
  10: {
    apply andb_true_iff in Hrendered as [_ Hsel%negb_true_iff].
    unfold updateRolesDisabled in Hsel. apply bool_decide_eq_false in Hsel.
    unfold handleRolesUpdate, handleRolesClose, handleRolesUpdate_payload.
    destruct (newRoles (view w)) as [|r rs] eqn:Hnew; [done|].
    destruct (rolesRow (view w)); frame_calls. }
  all: unfold handleInviteOpen, handleSort, handleRolesClick, openUrlsDialog,
         handleRemoveClick, handleRolesClose, handleRoleToggle, handleUrlsSave,
         handleInviteClose, handleInviteChange, handleInviteSubmit, handleRemove.
  all: repeat match goal with
              | |- context [match ?o with Some _ => _ | None => _ end] => destruct o
              | |- context [match ?o with inl _ => _ | inr _ => _ end] =>
                  lazymatch o with
                  | backend _ _ => fail
                  | _ => destruct o
                  end
              end.
  all: frame_calls.
Qed.

Lemma step_appends w ev :
  appends (roleUpdateFrom (newRoles (view w))) w (step w ev).
Proof.
  unfold step. destruct (dispatch (view w) ev) as [h|] eqn:Hd.
  - rewrite exec_bind. eapply appends_trans.
    + by eapply dispatch_appends.
    + by apply useEffect_appends.
  - exists []. by rewrite app_nil_r.
Qed.

(** C9.  The Update Roles button is disabled exactly when no role is
    selected.  With an empty selection a click on it reaches no handler and
    leaves the page as it is; and whatever the user does, a role update
    that goes out carries the selection the menu showed, which is not
    empty. *)
Theorem update_roles_needs_selection :
  (∀ s, updateRolesDisabled s = true ↔ newRoles s = [])
  ∧ (∀ s, newRoles s = [] → dispatch s UpdateRoles_click = None)
  ∧ (∀ w, newRoles (view w) = [] → step w UpdateRoles_click = w)
  ∧ (∀ w ev org memberId payload,
     updateMemberRoles org memberId payload ∈ issued w (step w ev) →
     dto_newRoles payload = newRoles (view w) ∧ newRoles (view w) ≠ []).
Proof.
  assert (Hdisabled : ∀ s, updateRolesDisabled s = true ↔ newRoles s = []).
  { intros s. unfold updateRolesDisabled. rewrite bool_decide_eq_true.
    by destruct (newRoles s). }
  assert (Hdispatch : ∀ s, newRoles s = [] → dispatch s UpdateRoles_click = None).
  { intros s Hs%Hdisabled. simpl. rewrite Hs. by rewrite andb_false_r. }
  split; [done|]. split; [done|]. split.
  - intros w Hw. unfold step. by rewrite Hdispatch.
  - intros w ev org memberId payload Hc.
    destruct (step_appends w ev) as (l & Hl & HP).
    rewrite (issued_app _ _ _ Hl) in Hc. rewrite Forall_forall in HP.
    by apply HP in Hc.
Qed.
End Reachability.

(** ** The concrete organization at work *)

Import Scenario.

Lemma fetchMembers_owner_first_witness :
  backend (Environment := healthy) (calls blank)
    (getOrganizationMembers "acme" (fetchMembers_query initialState)) = inl listing
  ∧ (let rows := members (view (exec (fetchMembers (env := healthy) initialState) blank)) in
     rows ≡ₚ entries listing ∧ ownersFirst rows).
Proof.
  split; [reflexivity|].
  apply (fetchMembers_owner_first (env := healthy) initialState blank listing).
  reflexivity.
Defined.

Lemma handleSort_toggles_witness :
  let s' := view (exec (handleSort initialState name) blank) in
  orderDir s' = desc ∧ orderBy s' = name ∧ page s' = 0.
Proof.
  destruct (handleSort_toggles initialState name blank) as (Hdesc & _ & Hby & Hpage).
  split; [apply Hdesc; split; reflexivity | split; assumption].
Defined.

Lemma self_and_owner_rows_inert_witness :
  (Some (Member.email root) = currentEmail (Environment := healthy) ∨ holdsOwner root)
  ∧ cursor (renderRow (env := healthy) initialState root) = "default"
  ∧ Link_onClick (renderRow (env := healthy) initialState olga) = None.
Proof.
  assert (Hself : Some (Member.email root) = currentEmail (Environment := healthy)
                  ∨ holdsOwner root) by (left; reflexivity).
  assert (Howner : Some (Member.email olga) = currentEmail (Environment := healthy)
                   ∨ holdsOwner olga) by (right; left).
  split; [exact Hself|]. split.
  - apply (self_and_owner_rows_inert (env := healthy) initialState root Hself).
  - apply (self_and_owner_rows_inert (env := healthy) initialState olga Howner).
Defined.

Lemma invite_without_urls_rejected_witness :
  Invite.allowedAllUrls (inviteData (view (run (env := healthy) inviteNoUrls))) = false
  ∧ Invite.allowedUrls (inviteData (view (run (env := healthy) inviteNoUrls))) = []
  ∧ (let w := run (env := healthy) inviteNoUrls in
     let w' := exec (handleInviteSubmit (env := healthy) (view w)) w in
     inviteErrors (view w') !! "allowedUrls"
       = Some "Select at least one URL or Allow All URLs"
     ∧ issued w w' = []).
Proof.
  split; [reflexivity|]. split; [reflexivity|].
  apply (invite_without_urls_rejected (env := healthy) inviteNoUrls); reflexivity.
Defined.

Lemma role_sets_never_empty_witness :
  let c := updateMemberRoles "acme" 3 {| dto_newRoles := [ORGANIZATION_MEMBER] |} in
  c ∈ issued blank (exec (handleRolesUpdate (env := healthy) nothingSelected) blank)
  ∧ [ORGANIZATION_MEMBER] ≠ []
  ∧ (newRoles nothingSelected = [] → [ORGANIZATION_MEMBER] = [ORGANIZATION_MEMBER]).
Proof.
  intros c.
  assert (Hc : c ∈ issued blank
                 (exec (handleRolesUpdate (env := healthy) nothingSelected) blank))
    by (vm_compute; left).
  split; [exact Hc|].
  apply (proj1 (role_sets_never_empty (env := healthy))
           nothingSelected blank c [ORGANIZATION_MEMBER] Hc).
  reflexivity.
Defined.

Lemma owner_role_never_edited_witness :
  let evs := editCarol ++ [UpdateRoles_click] in
  let payload :=
    {| dto_newRoles := [ORGANIZATION_MANAGER; ORGANIZATION_URLS_MANAGER;
                        ORGANIZATION_MEMBERS_MANAGER] |} in
  updateMemberRoles "acme" 4 payload ∈ calls (run (env := healthy) evs)
  ∧ ORGANIZATION_OWNER ∉ dto_newRoles payload.
Proof.
  intros evs payload.
  assert (Hc : updateMemberRoles "acme" 4 payload ∈ calls (run (env := healthy) evs))
    by (vm_compute; right; left).
  split; [exact Hc|].
  destruct (owner_role_never_edited (env := healthy)) as (_ & _ & Hcalls & _).
  exact (Hcalls evs "acme" 4 payload Hc).
Defined.

Lemma update_success_refetches_and_closes_witness :
  (let w := run (env := healthy) editCarol in
   let w' := exec (handleRolesUpdate (env := healthy) (view w)) w in
   rolesRow (view w) = Some carol ∧ rolesAnchor (view w) = Some 7%nat
   ∧ length (issued w w') = 2%nat ∧ rolesAnchor (view w') = None)
  ∧ (let env := failing (OTHER_ERROR "FORBIDDEN") in
     let w := run (env := env) editBobUrls in
     let w' := exec (handleUrlsSave (env := env) (view w)) w in
     urlsMember (view w) = Some bob ∧ urlsOpen (view w) = true
     ∧ length (issued w w') = 1%nat ∧ view w' = view w).
Proof.
  split.
  - intros w w'. split; [reflexivity|]. split; [reflexivity|].
    destruct (proj1 (update_success_refetches_and_closes (env := healthy) (view w) w)
                carol eq_refl) as (Hissued & Hanchor & _).
    split; [|exact Hanchor]. fold w' in Hissued. rewrite Hissued. reflexivity.
  - intros env w w'. split; [reflexivity|]. split; [reflexivity|].
    destruct (proj2 (update_success_refetches_and_closes (env := env) (view w) w)
                bob eq_refl) as (Hissued & Hview).
    split; [|exact Hview]. fold w' in Hissued. rewrite Hissued. reflexivity.
Defined.

Lemma invite_error_message_witness :
  let env := failing ENTITY_ALREADY_EXISTS in
  let w := run (env := env) inviteDana in
  safeParse (inviteSchema (env := env)) (inviteData (view w)) = inl (inviteData (view w))
  ∧ toasts (exec (handleInviteSubmit (env := env) (view w)) w)
    = [error "Member with this email already exists"].
Proof.
  intros env w. split; [reflexivity|].
  refine (proj1 (invite_error_message (env := env) (view w) w (inviteData (view w))
                   {| errorType := ENTITY_ALREADY_EXISTS |} _ _) _); reflexivity.
Defined.

Lemma update_roles_needs_selection_witness :
  updateRolesDisabled nothingSelected = true
  ∧ newRoles (view (run (env := healthy) untickCarol)) = []
  ∧ step (env := healthy) (run (env := healthy) untickCarol) UpdateRoles_click
    = run (env := healthy) untickCarol.
Proof.
  destruct (update_roles_needs_selection (env := healthy)) as (Hdisabled & _ & Hstep & _).
  assert (Hempty : newRoles (view (run (env := healthy) untickCarol)) = [])
    by (vm_compute; reflexivity).
  split; [|split].
  - apply Hdisabled. reflexivity.
  - exact Hempty.
  - exact (Hstep (run (env := healthy) untickCarol) Hempty).
Defined.

(** C6.  The invite does not keep the allow-all flag and the URL list apart.
    A user who unticks Allow All URLs, picks a URL, ticks the box again and
    sends the form issues an invite whose flag is set and whose list still
    holds the URL picked; the save of the URLs dialog, and the opening of
    that dialog, drop the list in the same situation. *)
Theorem invite_sends_urls_with_allow_all :
  let dto :=
    {| Invite.firstname := "Dana"; Invite.lastname := "Doe";
       Invite.email := "dana@acme.io"; Invite.allowedAllUrls := true;
       Invite.allowedUrls := [11]; Invite.roles := [ORGANIZATION_MEMBER] |} in
  issued (run (env := healthy) (removelast inviteAfterUnticking))
    (run (env := healthy) inviteAfterUnticking)
  = [inviteMember "acme" dto;
     getOrganizationMembers "acme" (fetchMembers_query initialState)]
  ∧ Invite.allowedAllUrls dto = true
  ∧ Invite.allowedUrls dto ≠ [].
Proof. split; [vm_compute; reflexivity | split; [reflexivity | discriminate]]. Qed.

(** * Further properties *)

(** ** The member list *)

Lemma filter_holdsOwner_others (l : list OrganizationMemberDto) :
  filter holdsOwner (filter (λ b, ¬ holdsOwner b) l) = [].
Proof.
  induction l as [|a l IH]; [done|].
  destruct (decide (holdsOwner a)) as [Ha|Ha].
  - rewrite (filter_cons_False (λ b, ¬ holdsOwner b)) by tauto. done.
  - rewrite (filter_cons_True (λ b, ¬ holdsOwner b)) by done.
    by rewrite filter_cons_False.
Qed.

Lemma filter_others_holdsOwner (l : list OrganizationMemberDto) :
  filter (λ b, ¬ holdsOwner b) (filter holdsOwner l) = [].
Proof.
  induction l as [|a l IH]; [done|].
  destruct (decide (holdsOwner a)) as [Ha|Ha].
  - rewrite (filter_cons_True holdsOwner) by done.
    rewrite filter_cons_False by tauto. done.
  - by rewrite (filter_cons_False holdsOwner).
Qed.

Lemma filter_idemp {A} (P : A → Prop) `{∀ x, Decision (P x)} (l : list A) :
  filter P (filter P l) = filter P l.
Proof.
  induction l as [|a l IH]; [done|]. destruct (decide (P a)).
  - rewrite !(filter_cons_True P) by done. by rewrite IH.
  - by rewrite (filter_cons_False P).
Qed.

Lemma filter_none {A} (P : A → Prop) `{∀ x, Decision (P x)} (l : list A) :
  Forall (λ x, ¬ P x) l → filter P l = [].
Proof.
  induction 1 as [|a l Ha _ IH]; [done|]. by rewrite filter_cons_False.
Qed.

Lemma ownersFirst_tail a l : ownersFirst (a :: l) → ownersFirst l.
Proof.
  intros Hl i j x y Hi Hj Hx Hy.
  pose proof (Hl (S i) (S j) x y Hi Hj Hx Hy). lia.
Qed.

Lemma ownersFirst_partition l :
  ownersFirst l → filter holdsOwner l ++ filter (λ b, ¬ holdsOwner b) l = l.
Proof.
  induction l as [|a l IH]; [done|]. intros Hl.
  specialize (IH (ownersFirst_tail _ _ Hl)).
  destruct (decide (holdsOwner a)) as [Ha|Ha].
  - rewrite (filter_cons_True holdsOwner) by done.
    rewrite filter_cons_False by tauto. simpl. by rewrite IH.
  - rewrite (filter_cons_False holdsOwner) by done.
    rewrite filter_cons_True by done.
    assert (Hnone : filter holdsOwner l = []).
    { apply filter_none, Forall_forall. intros b Hb Howner.
      apply list_elem_of_lookup in Hb as [i Hi].
      pose proof (Hl (S i) 0%nat b a Hi eq_refl Howner Ha). lia. }
    rewrite Hnone in *. simpl in *. by rewrite IH.
Qed.

Section MemberList.
Context {env : Environment}.

(** X1.  Within the owners, and within the other members, [fetchMembers]
    keeps the order in which the server sent the entries; it also stores
    the total of the response and ends with the loading flag down. *)
Theorem fetchMembers_keeps_server_order (s : PageState) (w : World)
    (res : OrganizationMembersListDto) :
  backend (calls w) (getOrganizationMembers slug (fetchMembers_query s)) = inl res →
  let s' := view (exec (fetchMembers s) w) in
  filter holdsOwner (members s') = filter holdsOwner (entries res)
  ∧ filter (λ b, ¬ holdsOwner b) (members s')
    = filter (λ b, ¬ holdsOwner b) (entries res)
  ∧ total s' = list_total res
  ∧ loading s' = false.
Proof.
  intros Hres. unfold exec. rewrite fetchMembers_run. simpl. rewrite Hres. simpl.
  rewrite Array_sort_ownerFirst, !filter_app.
  rewrite filter_holdsOwner_others, filter_others_holdsOwner, !filter_idemp.
  by rewrite app_nil_r.
Qed.

(** X2.  A listing that already has its owners first is stored as it came. *)
Theorem fetchMembers_sorted_unchanged (s : PageState) (w : World)
    (res : OrganizationMembersListDto) :
  backend (calls w) (getOrganizationMembers slug (fetchMembers_query s)) = inl res →
  ownersFirst (entries res) →
  members (view (exec (fetchMembers s) w)) = entries res.
Proof.
  intros Hres Hsorted. unfold exec. rewrite fetchMembers_run. simpl.
  rewrite Hres. simpl. rewrite Array_sort_ownerFirst.
  by apply ownersFirst_partition.
Qed.

(** X3.  When the listing fails, [fetchMembers] keeps the rows and the total
    it had, raises the one toast of that failure, and still ends with the
    loading flag down; the listing is the only request it made. *)
Theorem fetchMembers_failure (s : PageState) (w : World) (err : ErrorResponseElement) :
  backend (calls w) (getOrganizationMembers slug (fetchMembers_query s)) = inr err →
  let w' := exec (fetchMembers s) w in
  members (view w') = members (view w)
  ∧ total (view w') = total (view w)
  ∧ loading (view w') = false
  ∧ toasts w' = toasts w ++ [error "Could not get members of the organization"]
  ∧ issued w w' = [getOrganizationMembers slug (fetchMembers_query s)].
Proof.
  intros Herr. unfold issued, exec. rewrite fetchMembers_run. simpl.
  rewrite Herr. simpl. by rewrite drop_app_length.
Qed.
End MemberList.

(** ** Paging, sorting and the effect hook *)

Section Paging.
Context {env : Environment}.

Lemma fetchMembers_view_query res v :
  fetchMembers_query (fetchMembers_view res v) = fetchMembers_query v.
Proof. unfold fetchMembers_view. by destruct res. Qed.

Lemma fetchMembers_query_inj s1 s2 :
  fetchMembers_query s1 = fetchMembers_query s2 ↔
  (page s1, perPage s1, orderBy s1, orderDir s1)
  = (page s2, perPage s2, orderBy s2, orderDir s2).
Proof. unfold fetchMembers_query. split; intros [= -> -> -> ->]; done. Qed.

(** What the effect hook adds to a handler that ran from the render [s]. *)
Lemma useEffect_run before w :
  exec (useEffect before) w =
    if bool_decide (fetchMembers_query (view w) = fetchMembers_query before)
    then w else exec (fetchMembers (view w)) w.
Proof.
  unfold exec, useEffect.
  rewrite (bool_decide_ext _ _ (fetchMembers_query_inj (view w) before)).
  by destruct (bool_decide _).
Qed.

(** X4.  Whenever an event leaves the page, the page size, the sort column
    or the sort direction different from what it was, the last request of
    that event is the listing for the new values; and when it leaves them
    as they were, the effect hook requests nothing on top of the handler. *)
Theorem step_refetches_on_query_change (w : World) (ev : UiEvent) :
  (fetchMembers_query (view (step w ev)) ≠ fetchMembers_query (view w) →
   last (calls (step w ev))
   = Some (getOrganizationMembers slug (fetchMembers_query (view (step w ev)))))
  ∧ (∀ h, dispatch (view w) ev = Some h →
     fetchMembers_query (view (exec h w)) = fetchMembers_query (view w) →
     step w ev = exec h w).
Proof.
  unfold step. split.
  - destruct (dispatch (view w) ev) as [h|]; [|done].
    rewrite exec_bind, useEffect_run. case_bool_decide as Hsame; [done|].
    intros _. unfold exec. rewrite fetchMembers_run. cbn [snd view calls].
    by rewrite last_snoc, fetchMembers_view_query.
  - intros h -> Hsame. rewrite exec_bind, useEffect_run.
    by rewrite bool_decide_eq_true_2.
Qed.

(** X5.  A click on a sort header always ends in exactly one request: the
    listing of the first page, sorted by the clicked column, descending if
    that column was the ascending sort column and ascending otherwise. *)
Theorem sort_click_refetches (w : World) (property : OrderBy) :
  loading (view w) = false →
  issued w (step w (SortLabel_click property))
  = [getOrganizationMembers slug
       {| Query.p := 0; Query.q := perPage (view w); Query.sb := property;
          Query.dir :=
            if bool_decide (orderBy (view w) = property ∧ orderDir (view w) = asc)
            then desc else asc |}].
Proof.
  intros Hloading. apply issued_app. unfold step. simpl. rewrite Hloading. simpl.
  rewrite exec_bind, useEffect_run.
  unfold handleSort. unfold_handler. simpl.
  rewrite bool_decide_eq_false_2.
  - unfold exec. rewrite fetchMembers_run. simpl.
    unfold fetchMembers_query. simpl.
    destruct (orderBy (view w)), property, (orderDir (view w)); done.
  - unfold fetchMembers_query. simpl.
    destruct (orderBy (view w)), property, (orderDir (view w)); simpl;
      intros [= ]; done.
Qed.

(** X6.  Two clicks on the header of the sort column bring the direction
    back to what it was. *)
Theorem handleSort_twice (s : PageState) (w1 w2 : World) :
  let property := orderBy s in
  let s1 := view (exec (handleSort s property) w1) in
  let s2 := view (exec (handleSort s1 property) w2) in
  orderDir s2 = orderDir s ∧ orderBy s2 = orderBy s.
Proof.
  unfold handleSort. unfold_handler. simpl.
  rewrite !bool_decide_eq_true_2 by done. simpl.
  by destruct (orderDir s).
Qed.
End Paging.

(** ** Removing a member *)

Section Removal.
Context {env : Environment}.

(** X7.  [handleRemove] does nothing without a member to remove.  With one,
    a failed removal changes nothing in the view and raises its toast; a
    successful one closes the menu, goes back to the first page and asks for
    the list again, with the query of the render the click came from. *)
Theorem handleRemove_outcomes (s : PageState) (w : World) :
  (removeRow s = None → exec (handleRemove s) w = w)
  ∧ (∀ row, removeRow s = Some row →
     let c := deleteMember slug (Member.id row) in
     let w' := exec (handleRemove s) w in
     match backend (calls w) c with
     | inl _ =>
         issued w w' = [c; getOrganizationMembers slug (fetchMembers_query s)]
         ∧ removeAnchor (view w') = None
         ∧ page (view w') = 0
         ∧ toasts w'
           = toasts w ++ success "Member was successfully removed"
               :: match backend (calls w ++ [c])
                          (getOrganizationMembers slug (fetchMembers_query s)) with
                  | inl _ => []
                  | inr _ => [error "Could not get members of the organization"]
                  end
     | inr _ =>
         issued w w' = [c]
         ∧ view w' = view w
         ∧ toasts w' = toasts w ++ [error "Could not remove member"]
     end).
Proof.
  split.
  - intros Hrow. unfold handleRemove. rewrite Hrow. by destruct w.
  - intros row Hrow. simpl. unfold issued, handleRemove. rewrite Hrow.
    unfold_handler. simpl.
    destruct (backend (calls w) _) as [msg|err]; simpl.
    + rewrite fetchMembers_run. simpl.
      rewrite <- app_assoc, drop_app_length.
      destruct (backend (calls w ++ _) _) as [res|err]; simpl;
        repeat split; try done; by rewrite <- app_assoc.
    + by rewrite drop_app_length.
Qed.

(** X8.  A successful removal clicked on a page other than the first asks
    for the list twice: once from the handler, still with the page of its
    render, and once from the effect hook, with the first page.  Clicked on
    the first page it asks once. *)
Theorem remove_click_requests (w : World) (row : OrganizationMemberDto)
    (msg : MessageResponseDto) :
  isOpen (removeAnchor (view w)) = true →
  removeRow (view w) = Some row →
  backend (calls w) (deleteMember slug (Member.id row)) = inl msg →
  issued w (step w RemoveMember_click)
  = [deleteMember slug (Member.id row);
     getOrganizationMembers slug (fetchMembers_query (view w))]
    ++ (if bool_decide (page (view w) = 0) then []
        else [getOrganizationMembers slug (fetchMembers_query (withPage 0 (view w)))]).
Proof.
  intros Hopen Hrow Hmsg. apply issued_app. unfold step. simpl. rewrite Hopen. simpl.
  rewrite exec_bind, useEffect_run.
  unfold handleRemove. rewrite Hrow. unfold_handler. simpl. rewrite Hmsg. simpl.
  rewrite fetchMembers_run. simpl. rewrite fetchMembers_view_query.
  unfold fetchMembers_query at 1 2. simpl.
  case_bool_decide as Hpage.
  - injection Hpage as Hpage. rewrite bool_decide_eq_true_2 by done.
    by rewrite <- app_assoc.
  - rewrite bool_decide_eq_false_2 by congruence.
    unfold exec. rewrite fetchMembers_run. simpl.
    rewrite fetchMembers_view_query, <- !app_assoc. done.
Qed.
End Removal.

(** ** The invite schema in full *)

Lemma mergeReturns_aborted (rs : list ParseReturn) (r : ParseReturn) :
  r ∈ rs → r.1 = aborted → (mergeReturns rs).1 = aborted.
Proof.
  unfold mergeReturns. simpl. intros Hr Hstatus.
  induction Hr as [r rs|r r' rs _ IH]; rewrite fmap_cons; cbn [foldr].
  - by rewrite Hstatus.
  - rewrite IH by done. by destruct (r'.1).
Qed.

Lemma z_string_nonempty_run at_path v :
  z_string_nonempty at_path v =
    if bool_decide (v = "")
    then (dirty, [{| path := at_path;
                     issue_message := "String must contain at least 1 character(s)" |}])
    else (valid, []).
Proof. unfold z_string_nonempty. by destruct v. Qed.

Section Schema.
Context {env : Environment}.

Lemma z_array_enum_aborted values at_path (v : list MemberRole) (r : MemberRole) :
  r ∈ v → r ∉ values → (z_array (z_enum values) at_path v).1 = aborted.
Proof.
  intros [i Hi]%list_elem_of_lookup Hout. unfold z_array.
  apply (mergeReturns_aborted _ (z_enum values (at_path ++ [index i]) r)).
  - apply list_elem_of_lookup. exists i. by rewrite list_lookup_imap, Hi.
  - unfold z_enum. apply includes_false in Hout. by rewrite Hout.
Qed.

(** With roles the schema knows, the object stands or falls with its three
    text fields. *)
Lemma inviteObject_run (data : InviteMemberDto) :
  Invite.roles data ⊆ invitableRoles →
  inviteObject [] data =
    mergeReturns
      [ z_string_nonempty [key "firstname"] (Invite.firstname data);
        z_string_nonempty [key "lastname"] (Invite.lastname data);
        z_string_email [key "email"] (Invite.email data) ].
Proof.
  intros Hroles. unfold inviteObject.
  rewrite (z_array_valid (z_enum _)), (z_array_valid z_number); [| done |].
  - unfold mergeReturns. simpl. rewrite !app_nil_r.
    by destruct (z_string_nonempty _ (Invite.firstname data)).1,
         (z_string_nonempty _ (Invite.lastname data)).1,
         (z_string_email _ (Invite.email data)).1.
  - intros i r Hr. apply Hroles, includes_true in Hr.
    unfold z_enum, invitableRoles in *. by rewrite Hr.
Qed.

Lemma inviteObject_aborted (data : InviteMemberDto) :
  ¬ Invite.roles data ⊆ invitableRoles → (inviteObject [] data).1 = aborted.
Proof.
  intros Hroles.
  assert (∃ r, r ∈ Invite.roles data ∧ r ∉ invitableRoles) as (r & Hr & Hout).
  { assert (Hnot : ¬ Forall (λ r, r ∈ invitableRoles) (Invite.roles data)).
    { intros Hall. apply Hroles. intros r Hr.
      rewrite Forall_forall in Hall. by apply Hall. }
    apply not_Forall_Exists in Hnot; [|apply _].
    apply Exists_exists in Hnot. exact Hnot. }
  unfold inviteObject.
  eapply (mergeReturns_aborted _ (z_array _ _ (Invite.roles data))).
  - do 3 right. left.
  - by apply (z_array_enum_aborted _ _ _ r).
Qed.

(** X9.  The schema accepts an invite form exactly when both names are
    filled in, the address matches the e-mail pattern, every role is one the
    schema knows, and either all URLs are allowed or some URL is selected. *)
Theorem safeParse_inviteSchema_accepts (data : InviteMemberDto) :
  safeParse inviteSchema data = inl data ↔ validInvite data.
Proof.
  unfold validInvite, safeParse, inviteSchema, refine.
  destruct (decide (Invite.roles data ⊆ invitableRoles)) as [Hroles|Hroles].
  - rewrite (inviteObject_run data Hroles), !z_string_nonempty_run.
    unfold z_string_email, mergeReturns.
    destruct (Invite.allowedUrls data) as [|u urls];
      destruct (Invite.allowedAllUrls data);
      destruct (isEmail (Invite.email data));
      do 2 case_bool_decide; simpl; intuition congruence.
  - rewrite (surjective_pairing (inviteObject [] data)).
    rewrite (inviteObject_aborted data Hroles). intuition congruence.
Qed.
End Schema.

(** ** Submitting the invite form *)

Section InviteForm.
Context {env : Environment}.

(** X10.  Submitting a form the schema turns down, with roles the schema
    knows: the form errors are replaced by one message for each failing
    field (first name, last name, e-mail address, URL selection) and hold
    nothing else; nothing is requested and no toast is raised. *)
Theorem invalid_invite_field_errors (s : PageState) (w : World) :
  Invite.roles (inviteData s) ⊆ invitableRoles →
  ¬ validInvite (inviteData s) →
  let w' := exec (handleInviteSubmit s) w in
  let errs := inviteErrors (view w') in
  errs !! "firstname"
    = (if bool_decide (Invite.firstname (inviteData s) = "")
       then Some "String must contain at least 1 character(s)" else None)
  ∧ errs !! "lastname"
    = (if bool_decide (Invite.lastname (inviteData s) = "")
       then Some "String must contain at least 1 character(s)" else None)
  ∧ errs !! "email"
    = (if isEmail (Invite.email (inviteData s)) then None else Some "Invalid email")
  ∧ errs !! "allowedUrls"
    = (if Invite.allowedAllUrls (inviteData s)
          || bool_decide (0 < length (Invite.allowedUrls (inviteData s)))%nat
       then None else Some "Select at least one URL or Allow All URLs")
  ∧ (∀ k, k ∉ ["firstname"; "lastname"; "email"; "allowedUrls"] → errs !! k = None)
  ∧ calls w' = calls w
  ∧ toasts w' = toasts w.
Proof.
  intros Hroles Hinvalid. rewrite <- safeParse_inviteSchema_accepts in Hinvalid.
  revert Hinvalid.
  unfold handleInviteSubmit, safeParse, inviteSchema, refine.
  rewrite (inviteObject_run _ Hroles), !z_string_nonempty_run.
  unfold z_string_email, mergeReturns.
  destruct (Invite.allowedUrls (inviteData s)) as [|u urls];
    destruct (Invite.allowedAllUrls (inviteData s));
    destruct (isEmail (Invite.email (inviteData s)));
    do 2 case_bool_decide; simpl; intros Hinvalid; try done;
    unfold_handler; cbn [view calls toasts snd inviteErrors withInviteErrors];
    (split_and!; [try reflexivity.. | | reflexivity | reflexivity]);
    intros k Hk;
    apply not_elem_of_cons in Hk as [? Hk];
    apply not_elem_of_cons in Hk as [? Hk];
    apply not_elem_of_cons in Hk as [? Hk];
    apply not_elem_of_cons in Hk as [? Hk];
    by rewrite ?lookup_insert_ne, lookup_empty.
Qed.
End InviteForm.

(** ** What the page never sends *)

Ltac frame_requests :=
  unfold appends; unfold_handler; simpl;
  repeat match goal with
         | |- context [backend ?l ?c] => destruct (backend l c); simpl
         | |- context [fetchMembers ?s ?w] => rewrite (fetchMembers_run s w); simpl
         | |- context [bool_decide ?P] => destruct (bool_decide P); simpl
         end;
  rewrite <- ?app_assoc;
  first [ by (exists []; rewrite app_nil_r; split; [done | constructor])
        | by (eexists; split; [reflexivity | repeat constructor; eauto]) ].

Section Requests.
Context {env : Environment}.

(** Every request a handler makes is the one its render stands for. *)
Lemma dispatch_requestFrom w ev h :
  dispatch (view w) ev = Some h →
  appends (requestFrom (view w)) w (exec h w).
Proof.
  intros Hd. destruct ev; simpl in Hd;
    repeat match type of Hd with
           | context [members ?s !! ?row] =>
               destruct (members s !! row) as [m|]; simpl in Hd; [|done]
           | context [(if ?b then Some _ else None) ≫= _] =>
               destruct b; simpl in Hd; [|done]
           end;
    apply when_Some in Hd as [Hrendered ->].
  10: { unfold handleRolesUpdate, handleRolesClose.
        destruct (rolesRow (view w)) eqn:Hrow; frame_requests. }
  13: { unfold handleUrlsSave.
        destruct (urlsMember (view w)) eqn:Hmember; frame_requests. }
  20: { apply andb_true_iff in Hrendered as [Hopen _].
        unfold handleInviteSubmit, handleInviteClose.
        destruct (safeParse _ _); frame_requests. }
  21: { unfold handleRemove.
        destruct (removeRow (view w)) eqn:Hrow; frame_requests. }
  all: unfold handleInviteOpen, handleSort, handleRolesClick, openUrlsDialog,
         handleRemoveClick, handleRolesClose, handleRoleToggle,
         handleInviteClose, handleInviteChange.
  all: repeat match goal with
              | |- context [if ?b then _ else _] =>
                  lazymatch b with
                  | bool_decide _ => fail
                  | _ => destruct b
                  end
              end.
  all: frame_requests.
Qed.

Lemma step_requestFrom w ev : appends (requestFrom (view w)) w (step w ev).
Proof.
  unfold step. destruct (dispatch (view w) ev) as [h|] eqn:Hd.
  - rewrite exec_bind. eapply appends_trans.
    + by eapply dispatch_requestFrom.
    + unfold exec, useEffect. destruct (bool_decide _).
      * exists []. by rewrite app_nil_r.
      * rewrite fetchMembers_run. simpl. eexists. split; [done|]. by constructor.
  - exists []. by rewrite app_nil_r.
Qed.
End Requests.

(** ** What holds of the view after any sequence of events *)

Ltac solve_guarded :=
  constructor; simpl; try done; try tauto; eauto.

Section Guarded.
Context {env : Environment}.

Lemma checkboxRoles_invitable : checkboxRoles ⊆ invitableRoles.
Proof.
  intros r. unfold checkboxRoles, invitableRoles.
  rewrite !elem_of_cons, !elem_of_nil. tauto.
Qed.

Lemma fetchMembers_view_guarded res v :
  guarded v → guarded (fetchMembers_view res v).
Proof.
  intros [? ? ? ? ? ? ? ? ? [_ ?]]. unfold fetchMembers_view.
  destruct res; solve_guarded.
Qed.

Lemma fetchMembers_guarded s w :
  guarded (view w) → guarded (view (exec (fetchMembers s) w)).
Proof.
  intros Hg. unfold exec. rewrite fetchMembers_run. simpl.
  by apply fetchMembers_view_guarded.
Qed.

Lemma useEffect_guarded before w :
  guarded (view w) → guarded (view (exec (useEffect before) w)).
Proof.
  intros Hg. unfold exec, useEffect. destruct (bool_decide _); [done|].
  by apply fetchMembers_guarded.
Qed.

Lemma rowFlags_editable (m : OrganizationMemberDto) :
  isDisabled (rowFlags m) = false → editable m.
Proof.
  simpl. intros [Hself Howner]%orb_false_iff. split.
  - by apply includes_false in Howner.
  - by apply bool_decide_eq_false in Hself.
Qed.

(** A form the Send button lets through never earns the message of the URL
    selection. *)
Lemma handleInviteSubmit_no_urls_error s w :
  Invite.roles (inviteData s) ⊆ invitableRoles →
  sendInviteDisabled s = false →
  inviteErrors (view w) !! "allowedUrls" = None →
  inviteErrors (view (exec (handleInviteSubmit s) w)) !! "allowedUrls" = None.
Proof.
  intros Hroles Hsend Hold. revert Hsend.
  unfold sendInviteDisabled, handleInviteSubmit, handleInviteClose,
    safeParse, inviteSchema, refine.
  rewrite (inviteObject_run _ Hroles), !z_string_nonempty_run.
  unfold z_string_email, mergeReturns.
  destruct (Invite.allowedUrls (inviteData s)) as [|u urls];
    destruct (Invite.allowedAllUrls (inviteData s));
    destruct (isEmail (Invite.email (inviteData s)));
    repeat case_bool_decide; simpl in *; intros Hsend; try done; try lia;
    unfold_handler; cbn [view calls toasts snd inviteErrors withInviteErrors];
    try reflexivity.
  all: destruct (backend _ _); simpl;
    [ rewrite fetchMembers_run; simpl;
      first [ apply lookup_empty | done
            | unfold fetchMembers_view; destruct (backend _ _); apply lookup_empty ]
    | by destruct (bool_decide _) ].
Qed.

Lemma editable_intro (m : OrganizationMemberDto) :
  bool_decide (Some (Member.email m) = currentEmail) = false →
  includes (Member.roles m) ORGANIZATION_OWNER = false →
  editable m.
Proof.
  intros Hself Howner. split.
  - by apply includes_false in Howner.
  - by apply bool_decide_eq_false in Hself.
Qed.

Lemma toggled_NoDup (l : list MemberRole) (role : MemberRole) :
  NoDup l →
  NoDup (if negb (includes l role) then l ++ [role] else filter (λ r, r ≠ role) l).
Proof.
  intros Hl. destruct (includes l role) eqn:Hin; simpl.
  - by apply NoDup_filter.
  - apply includes_false in Hin. apply NoDup_app. split; [done|].
    split; [|apply NoDup_singleton].
    intros r Hr ->%list_elem_of_singleton. done.
Qed.

Ltac guarded_fields :=
  constructor; simpl;
  repeat match goal with
         | H : ?field (view _) = _ |- _ => rewrite H
         end;
  try done; try tauto; eauto;
  try (intros ? [= <-]; split; [done | by apply editable_intro]).

Ltac run_guarded :=
  unfold_handler; simpl;
  repeat match goal with
         | |- context [backend ?l ?c] => destruct (backend l c); simpl
         | |- context [fetchMembers ?s ?w] =>
             rewrite (fetchMembers_run s w); simpl; unfold fetchMembers_view
         | |- context [if ?b then _ else _] => destruct b eqn:?; simpl
         end;
  guarded_fields.

Lemma dispatch_guarded w ev h :
  guarded (view w) → wellFormed w →
  dispatch (view w) ev = Some h → guarded (view (exec h w)).
Proof.
  intros Hg Hw Hd. destruct ev; simpl in Hd;
    repeat match type of Hd with
           | context [members ?s !! ?row] =>
               destruct (members s !! row) as [m|]; simpl in Hd; [|done]
           | context [(if ?b then Some _ else None) ≫= _] =>
               destruct b eqn:?; simpl in Hd; [|done]
           end;
    apply when_Some in Hd as [Hrendered ->].
  all: pose proof Hg as [Hrow Hmember Hremove Hinvite Hanchor Hopen Hranchor
                           Hnodup Herrors [Hloading Hurls]].
  all: unfold handleInviteOpen, handleSort, handleRolesClick, openUrlsDialog,
         handleRemoveClick, handleRolesClose, handleRoleToggle, handleUrlsSave,
         handleRolesUpdate, handleRemove, handleInviteClose, handleInviteChange.
  all: try (run_guarded; fail).
  - (* roles cell *)
    destruct (negb canManageMembers || _ || _) eqn:Htest;
      [by destruct (_ && _)|].
    apply orb_false_iff in Htest as [[Hcan%negb_false_iff Hself]%orb_false_iff Howner].
    destruct (_ && _); [|done]. run_guarded.
  - (* URLs link *)
    destruct (negb canManageUrls || _ || _) eqn:Htest; [done|].
    apply orb_false_iff in Htest as [[Hcan%negb_false_iff Hself]%orb_false_iff Howner].
    run_guarded.
  - (* actions button *)
    apply andb_true_iff in Hrendered as [_ [Hcan Hdis%negb_true_iff]%andb_true_iff].
    unfold_handler. guarded_fields.
    intros ? [= <-]. split; [done|]. by apply rowFlags_editable.
  - (* Update Roles *)
    destruct (rolesRow (view w)) as [row|] eqn:Hsel; run_guarded.
  - (* Save *)
    destruct (urlsMember (view w)) as [member|] eqn:Hsel; run_guarded.
  - destruct (inviteData (view w)) eqn:Hdata; rewrite ?Hdata in *; run_guarded.
  - destruct (inviteData (view w)) eqn:Hdata; rewrite ?Hdata in *; run_guarded.
  - destruct (inviteData (view w)) eqn:Hdata; rewrite ?Hdata in *; run_guarded.
  - destruct (inviteData (view w)) eqn:Hdata; rewrite ?Hdata in *; run_guarded.
  - destruct (inviteData (view w)) eqn:Hdata; rewrite ?Hdata in *; run_guarded.
  - (* a role of the invite form *)
    pose proof (toggled_NoDup _ role Hnodup) as Htoggled.
    destruct (inviteData (view w)) eqn:Hdata; rewrite ?Hdata in *.
    unfold_handler. simpl in *. rewrite Hdata. guarded_fields.
  - (* Send Invite *)
    apply andb_true_iff in Hrendered as [_ Hsend%negb_true_iff].
    pose proof (handleInviteSubmit_no_urls_error (view w) w) as Herr.
    specialize (Herr (λ r Hr, checkboxRoles_invitable r (wf_inviteRoles w Hw r Hr))
                  Hsend Herrors).
    revert Herr. unfold handleInviteSubmit, handleInviteClose.
    destruct (safeParse _ _); unfold_handler; simpl.
    + destruct (backend _ _); simpl.
      * rewrite fetchMembers_run. simpl. unfold fetchMembers_view.
        destruct (backend _ _); intros Herr; guarded_fields; apply NoDup_nil_2.
      * destruct (bool_decide _); intros Herr; guarded_fields.
    + intros Herr. guarded_fields.
  - (* Remove Member *)
    destruct (removeRow (view w)) as [row|] eqn:Hsel; run_guarded.
Qed.

Lemma step_guarded w ev :
  guarded (view w) → wellFormed w → guarded (view (step w ev)).
Proof.
  intros Hg Hw. unfold step.
  destruct (dispatch (view w) ev) as [h|] eqn:Hd; [|done].
  rewrite exec_bind. apply useEffect_guarded. by eapply dispatch_guarded.
Qed.

Lemma run_guarded_view evs : guarded (view (run evs)).
Proof.
  induction evs as [|ev evs IH] using rev_ind.
  - apply fetchMembers_guarded. constructor; simpl; try done.
    apply NoDup_nil_2.
  - unfold run in *. rewrite foldl_app. simpl.
    apply step_guarded; [done|]. apply run_wellFormed.
Qed.

Lemma requestFrom_permitted s c : guarded s → requestFrom s c → permitted c.
Proof.
  intros Hg Hc. destruct c; simpl in *; try done.
  - destruct Hc as (_ & _ & m & Hm & _). by apply (g_rolesRow s Hg m).
  - destruct Hc as (_ & _ & m & Hm & _). by apply (g_urlsMember s Hg m).
  - destruct Hc as (_ & _ & Hopen). by apply (g_inviteOpen s Hg).
  - destruct Hc as (_ & m & Hm & _). by apply (g_removeRow s Hg m).
Qed.

(** A property of the requests of every render holds of the whole log. *)
Lemma run_calls_ind (P : ApiCall → Prop) :
  (∀ evs c, requestFrom (view (run evs)) c → P c) →
  ∀ evs c, c ∈ calls (run evs) → P c.
Proof.
  intros HP evs. induction evs as [|ev evs IH] using rev_ind; intros c.
  - unfold run, mount, exec. simpl. rewrite fetchMembers_run. simpl.
    intros ->%list_elem_of_singleton. by apply (HP []).
  - unfold run in *. rewrite foldl_app. simpl.
    destruct (step_requestFrom (foldl step mount evs) ev) as (l & -> & Hl).
    rewrite elem_of_app. intros [Hc|Hc]; [by apply IH|].
    rewrite Forall_forall in Hl. by apply (HP evs), Hl.
Qed.

(** X11.  Whatever the user does, a role update, an invite or a removal is
    only ever requested by a user who holds a members-management role, and a
    URL-access update only by one who holds a URL-management role. *)
Theorem mutations_need_permission (evs : list UiEvent) :
  (∀ org memberId payload,
     updateMemberRoles org memberId payload ∈ calls (run evs) →
     canManageMembers = true)
  ∧ (∀ org dto, inviteMember org dto ∈ calls (run evs) → canManageMembers = true)
  ∧ (∀ org memberId, deleteMember org memberId ∈ calls (run evs) →
     canManageMembers = true)
  ∧ (∀ org memberId dto,
     updateMemberUrls org memberId dto ∈ calls (run evs) → canManageUrls = true).
Proof.
  assert (Hall : ∀ c, c ∈ calls (run evs) → permitted c).
  { apply run_calls_ind. intros evs' c. apply requestFrom_permitted, run_guarded_view. }
  split; [|split; [|split]].
  - intros org memberId payload Hc. exact (Hall _ Hc).
  - intros org dto Hc. exact (Hall _ Hc).
  - intros org memberId Hc. exact (Hall _ Hc).
  - intros org memberId dto Hc. exact (Hall _ Hc).
Qed.

(** X12.  Whatever the user does next, a role update, a URL-access update or
    a removal that goes out is aimed at the member the page holds for that
    edit, and that member is neither an owner nor the acting user. *)
Theorem mutations_spare_self_and_owner (evs : list UiEvent) (ev : UiEvent) :
  let w := run evs in
  (∀ org memberId payload,
     updateMemberRoles org memberId payload ∈ issued w (step w ev) →
     ∃ m, rolesRow (view w) = Some m ∧ memberId = Member.id m ∧ editable m)
  ∧ (∀ org memberId dto,
     updateMemberUrls org memberId dto ∈ issued w (step w ev) →
     ∃ m, urlsMember (view w) = Some m ∧ memberId = Member.id m ∧ editable m)
  ∧ (∀ org memberId,
     deleteMember org memberId ∈ issued w (step w ev) →
     ∃ m, removeRow (view w) = Some m ∧ memberId = Member.id m ∧ editable m).
Proof.
  intros w. pose proof (run_guarded_view evs) as Hg. fold w in Hg.
  destruct (step_requestFrom w ev) as (l & Hl & HP).
  rewrite (issued_app _ _ _ Hl). rewrite Forall_forall in HP.
  split; [|split].
  - intros org memberId payload Hc.
    destruct (HP _ Hc) as (_ & _ & m & Hm & ->). exists m.
    split; [done|]. split; [done|]. by apply (g_rolesRow _ Hg m).
  - intros org memberId dto Hc.
    destruct (HP _ Hc) as (_ & _ & m & Hm & ->). exists m.
    split; [done|]. split; [done|]. by apply (g_urlsMember _ Hg m).
  - intros org memberId Hc.
    destruct (HP _ Hc) as (_ & m & Hm & ->). exists m.
    split; [done|]. split; [done|]. by apply (g_removeRow _ Hg m).
Qed.
End Guarded.

(** ** The page at rest *)

Section AtRest.
Context {env : Environment}.

(** X13.  Every invite the page sends names at least one role, names no role
    twice, and names only roles the invite schema knows: never the owner
    role, never the admin role. *)
Theorem invites_grant_listed_roles_only (evs : list UiEvent) (org : string)
    (dto : InviteMemberDto) :
  inviteMember org dto ∈ calls (run evs) →
  Invite.roles dto ≠ []
  ∧ NoDup (Invite.roles dto)
  ∧ Invite.roles dto ⊆ invitableRoles
  ∧ (ORGANIZATION_OWNER ∉ Invite.roles dto)
  ∧ (ORGANIZATION_ADMIN ∉ Invite.roles dto).
Proof.
  intros Hc.
  assert (Hroles : Invite.roles dto ≠ [] ∧ NoDup (Invite.roles dto)
                   ∧ Invite.roles dto ⊆ invitableRoles).
  { revert org dto Hc.
    cut (∀ c, c ∈ calls (run evs) → ∀ org dto, c = inviteMember org dto →
              Invite.roles dto ≠ [] ∧ NoDup (Invite.roles dto)
              ∧ Invite.roles dto ⊆ invitableRoles); [by eauto|].
    apply (run_calls_ind (λ c, ∀ org dto, c = inviteMember org dto →
              Invite.roles dto ≠ [] ∧ NoDup (Invite.roles dto)
              ∧ Invite.roles dto ⊆ invitableRoles)).
    intros evs' c Hfrom org dto ->.
    destruct Hfrom as (_ & -> & _).
    pose proof (g_inviteRoles _ (run_guarded_view evs')) as Hnodup.
    pose proof (wf_inviteRoles _ (run_wellFormed evs')) as Hsub.
    unfold handleInviteSubmit_dto.
    destruct (inviteData (view (run evs'))) as [fn ln em all urls rs]. simpl in *.
    destruct rs as [|r rs]; simpl.
    - split; [done|]. split; [apply NoDup_singleton|].
      intros r ->%list_elem_of_singleton. unfold invitableRoles.
      rewrite !elem_of_cons. tauto.
    - split; [done|]. split; [done|].
      intros r' Hr'. by apply checkboxRoles_invitable, Hsub. }
  destruct Hroles as (Hne & Hnodup & Hsub). repeat split; try done.
  - intros Hin%Hsub. unfold invitableRoles in Hin.
    rewrite !elem_of_cons, elem_of_nil in Hin. by destruct Hin as [?|[?|[?|[?|[]]]]].
  - intros Hin%Hsub. unfold invitableRoles in Hin.
    rewrite !elem_of_cons, elem_of_nil in Hin. by destruct Hin as [?|[?|[?|[?|[]]]]].
Qed.

(** X14.  The Send Invite button is disabled exactly when the refinement of
    the schema would fail, so whatever the user does the form errors never
    come to hold the message of the URL selection. *)
Theorem allowedUrls_error_never_raised :
  (∀ s, sendInviteDisabled s = true ↔
        Invite.allowedAllUrls (inviteData s) = false
        ∧ Invite.allowedUrls (inviteData s) = [])
  ∧ (∀ evs, inviteErrors (view (run evs)) !! "allowedUrls" = None).
Proof.
  split.
  - intros s. unfold sendInviteDisabled.
    destruct (Invite.allowedAllUrls (inviteData s)),
      (Invite.allowedUrls (inviteData s)); simpl; intuition congruence.
  - intros evs. apply (g_inviteErrors _ (run_guarded_view evs)).
Qed.

(** X15.  Once an event has been handled no spinner is left on: the loading
    flag of the list and that of the URLs dialog are both down, whether the
    requests behind them succeeded or failed. *)
Theorem no_spinner_left_on (evs : list UiEvent) :
  loading (view (run evs)) = false ∧ urlsLoading (view (run evs)) = false.
Proof. apply (g_loading _ (run_guarded_view evs)). Qed.
End AtRest.

(** ** Open menus and dialogs *)

Section Surfaces.
Context {env : Environment}.

Lemma step_first_request w ev h c :
  dispatch (view w) ev = Some h →
  (∃ rest, calls (exec h w) = calls w ++ c :: rest) →
  head (issued w (step w ev)) = Some c.
Proof.
  intros Hd [rest Hcalls]. unfold step, issued. rewrite Hd, exec_bind.
  destruct (useEffect_appends (λ _, True) (view w) (exec h w)) as (l & -> & _); [done|].
  by rewrite Hcalls, <- app_assoc, drop_app_length.
Qed.

(** X16.  In any state the page can reach, an open roles menu, URLs dialog
    or removal menu has the member it was opened for, so its action sends
    its request: Update Roles (with some role selected) the role update,
    Save the URL-access update, Remove Member the removal. *)
Theorem open_surfaces_act (evs : list UiEvent) :
  let w := run evs in
  (isOpen (rolesAnchor (view w)) = true → newRoles (view w) ≠ [] →
   ∃ m, rolesRow (view w) = Some m
        ∧ head (issued w (step w UpdateRoles_click))
          = Some (updateMemberRoles slug (Member.id m)
                    {| dto_newRoles := newRoles (view w) |}))
  ∧ (urlsOpen (view w) = true →
     ∃ m, urlsMember (view w) = Some m
          ∧ head (issued w (step w Save_click))
            = Some (updateMemberUrls slug (Member.id m) (handleUrlsSave_dto (view w))))
  ∧ (isOpen (removeAnchor (view w)) = true →
     ∃ m, removeRow (view w) = Some m
          ∧ head (issued w (step w RemoveMember_click))
            = Some (deleteMember slug (Member.id m))).
Proof.
  intros w. pose proof (run_guarded_view evs) as Hg. fold w in Hg.
  split; [|split].
  - intros Hopen Hsel.
    destruct (g_rolesAnchor _ Hg Hopen) as [m Hm]. exists m. split; [done|].
    assert (Hpayload : handleRolesUpdate_payload (view w)
                       = {| dto_newRoles := newRoles (view w) |}).
    { unfold handleRolesUpdate_payload. by destruct (newRoles (view w)). }
    rewrite <- Hpayload.
    eapply step_first_request.
    + simpl. rewrite Hopen. unfold updateRolesDisabled.
      rewrite bool_decide_eq_false_2; [done|]. by destruct (newRoles (view w)).
    + unfold handleRolesUpdate, handleRolesClose. rewrite Hm.
      unfold_handler. simpl. destruct (backend _ _); simpl; [|by eexists].
      rewrite fetchMembers_run. simpl. rewrite <- app_assoc. by eexists.
  - intros Hopen.
    destruct (g_urlsOpen _ Hg Hopen) as [m Hm]. exists m. split; [done|].
    eapply step_first_request.
    + simpl. by rewrite Hopen.
    + unfold handleUrlsSave. rewrite Hm.
      unfold_handler. simpl. destruct (backend _ _); simpl; [|by eexists].
      rewrite fetchMembers_run. simpl. rewrite <- app_assoc. by eexists.
  - intros Hopen.
    destruct (g_removeAnchor _ Hg Hopen) as [m Hm]. exists m. split; [done|].
    eapply step_first_request.
    + simpl. by rewrite Hopen.
    + unfold handleRemove. rewrite Hm.
      unfold_handler. simpl. destruct (backend _ _); simpl; [|by eexists].
      rewrite fetchMembers_run. simpl. rewrite <- app_assoc. by eexists.
Qed.


(** X17.  For a member the acting user may edit, [openUrlsDialog] makes one
    request, the listing of the short URLs, and raises no toast whatever the
    answer.  The dialog ends open, not loading, on that member and on the
    member's allow-all flag.  With the listing at hand the selection is made
    of the listed URLs the member is allowed (none under the flag); without
    it the options stay as they were and nothing is selected. *)
Theorem openUrlsDialog_opens (s : PageState) (member : OrganizationMemberDto)
    (w : World) :
  canManageUrls = true → editable member →
  let w' := exec (openUrlsDialog s member) w in
  issued w w' = [getShortUrls slug 10000]
  ∧ toasts w' = toasts w
  ∧ urlsOpen (view w') = true
  ∧ urlsLoading (view w') = false
  ∧ urlsMember (view w') = Some member
  ∧ allowedAll (view w') = Member.allowedAllUrls member
  ∧ match backend (calls w) (getShortUrls slug 10000) with
    | inl res =>
        allUrls (view w') = url_entries res
        ∧ selectedUrls (view w')
          = (if Member.allowedAllUrls member then []
             else filter (λ u, ShortUrl.id u ∈ Member.allowedUrls member)
                    (url_entries res))
    | inr _ => allUrls (view w') = allUrls (view w) ∧ selectedUrls (view w') = []
    end.
Proof.
  intros Hcan [Howner Hself]. unfold issued, openUrlsDialog.
  apply includes_false in Howner.
  rewrite Hcan, (bool_decide_eq_false_2 _ Hself), Howner. unfold_handler. simpl.
  destruct (backend (calls w) _) as [res|err]; simpl; rewrite drop_app_length.
  - repeat split; try done. destruct (Member.allowedAllUrls member); [done|].
    apply list_filter_iff. intros u. apply includes_true.
  - repeat split; try done. by destruct (Member.allowedAllUrls member).
Qed.

End Surfaces.

(** ** After an invite *)

Section InviteOutcome.
Context {env : Environment}.

(** X19.  When the form parses and the invite succeeds, the dialog closes,
    the list is requested again, and the form goes back to its initial
    values with no errors.  When the invite fails, the view is left exactly
    as it was: the dialog stays open with what the user typed. *)
Theorem handleInviteSubmit_outcomes (s : PageState) (w : World) :
  validInvite (inviteData s) →
  let c := inviteMember slug (handleInviteSubmit_dto s) in
  let w' := exec (handleInviteSubmit s) w in
  match backend (calls w) c with
  | inl _ =>
      issued w w' = [c; getOrganizationMembers slug (fetchMembers_query s)]
      ∧ inviteOpen (view w') = false
      ∧ inviteData (view w') = emptyInvite
      ∧ inviteErrors (view w') = ∅
  | inr _ => issued w w' = [c] ∧ view w' = view w
  end.
Proof.
  intros Hvalid%safeParse_inviteSchema_accepts. simpl.
  unfold issued, handleInviteSubmit, handleInviteClose.
  rewrite Hvalid. unfold_handler. simpl.
  destruct (backend (calls w) _) as [msg|err]; simpl.
  - rewrite fetchMembers_run. simpl. rewrite <- app_assoc, drop_app_length.
    by destruct (backend (calls w ++ _) _).
  - destruct (bool_decide _); simpl; by rewrite drop_app_length.
Qed.
End InviteOutcome.

(** ** Ticking roles *)

Lemma filter_ne_absent (role : MemberRole) (l : list MemberRole) :
  role ∉ l → filter (λ r, r ≠ role) l = l.
Proof.
  induction l as [|r l IH]; [done|].
  intros [Hr Hl]%not_elem_of_cons.
  rewrite filter_cons_True by done. by rewrite IH.
Qed.

(** X20.  A checkbox of the roles menu flips its own role in the selection
    and leaves every other role as it was; a selection without repeats stays
    without repeats; and ticking a role that is not selected and unticking
    it again gives the selection back as it was. *)
Theorem handleRoleToggle_flips (role : MemberRole) (w : World) :
  let before := newRoles (view w) in
  let after := newRoles (view (exec (handleRoleToggle role) w)) in
  (role ∈ after ↔ role ∉ before)
  ∧ (∀ r, r ≠ role → (r ∈ after ↔ r ∈ before))
  ∧ (NoDup before → NoDup after)
  ∧ (role ∉ before →
     newRoles (view (exec (handleRoleToggle role) (exec (handleRoleToggle role) w)))
     = before).
Proof.
  unfold handleRoleToggle. unfold_handler. simpl.
  destruct (includes (newRoles (view w)) role) eqn:Hin.
  - apply includes_true in Hin. split; [|split; [|split]].
    + rewrite list_elem_of_filter. tauto.
    + intros r Hr. rewrite list_elem_of_filter. tauto.
    + apply NoDup_filter.
    + done.
  - apply includes_false in Hin. split; [|split; [|split]].
    + rewrite elem_of_app, list_elem_of_singleton. tauto.
    + intros r Hr. rewrite elem_of_app, list_elem_of_singleton. tauto.
    + intros Hnodup. apply NoDup_app. split; [done|]. split; [|apply NoDup_singleton].
      by intros r Hr ->%list_elem_of_singleton.
    + intros _. replace (includes (newRoles (view w) ++ [role]) role) with true.
      * rewrite filter_app, filter_cons_False, filter_nil, app_nil_r by tauto.
        by apply filter_ne_absent.
      * symmetry. apply includes_true, elem_of_app. right.
        by apply list_elem_of_singleton.
Qed.

(** ** The role chips *)

Section Chips.
Context {env : Environment}.

Lemma ROLE_LABELS_Owner (r : MemberRole) :
  ROLE_LABELS r = "Owner" ↔ r = ORGANIZATION_OWNER.
Proof. by destruct r. Qed.

(** X21.  A row shows one chip for each role of its member, and the Owner
    chip is among them exactly when the member holds the owner role. *)
Theorem chips_show_owner (s : PageState) (m : OrganizationMemberDto) :
  length (chips (renderRow s m)) = length (Member.roles m)
  ∧ ("Owner" ∈ chips (renderRow s m) ↔ holdsOwner m).
Proof.
  unfold renderRow, holdsOwner. simpl. case_bool_decide as Hbase.
  - rewrite Hbase. split; [done|].
    rewrite !list_elem_of_singleton. split; done.
  - split; [by rewrite length_fmap|].
    rewrite list_elem_of_fmap. split.
    + intros (r & Hr%eq_sym%ROLE_LABELS_Owner & Hin). by subst.
    + intros Hin. by exists ORGANIZATION_OWNER.
Qed.
End Chips.

(** ** The further properties at work *)

Import Cases.

Lemma fetchMembers_keeps_server_order_witness :
  let s' := view (exec (fetchMembers (env := healthy) initialState) blank) in
  filter holdsOwner (members s') = [olga]
  ∧ filter (λ b, ¬ holdsOwner b) (members s') = [bob; carol; root].
Proof.
  destruct (fetchMembers_keeps_server_order (env := healthy) initialState blank listing
              eq_refl) as (Howners & Hothers & _).
  split.
  - etransitivity; [exact Howners|]. vm_compute. reflexivity.
  - etransitivity; [exact Hothers|]. vm_compute. reflexivity.
Defined.

Lemma fetchMembers_sorted_unchanged_witness :
  ownersFirst (entries orderly)
  ∧ members (view (exec (fetchMembers (env := tidy) initialState) blank))
    = [olga; bob; carol].
Proof.
  assert (Hsorted : ownersFirst (entries orderly)).
  { change (entries orderly) with (Array_sort ownerFirst (entries orderly)).
    apply Array_sort_ownersFirst. }
  split; [exact Hsorted|].
  exact (fetchMembers_sorted_unchanged (env := tidy) initialState blank orderly
           eq_refl Hsorted).
Defined.

Lemma fetchMembers_failure_witness :
  let w' := exec (fetchMembers (env := unreachable) initialState) blank in
  members (view w') = [] ∧ loading (view w') = false
  ∧ toasts w' = [error "Could not get members of the organization"].
Proof.
  destruct (fetchMembers_failure (env := unreachable) initialState blank
              {| errorType := OTHER_ERROR "UNAVAILABLE" |} eq_refl)
    as (Hrows & _ & Hloading & Htoasts & _).
  split; [exact Hrows|]. split; [exact Hloading|exact Htoasts].
Defined.

Lemma sort_click_refetches_witness :
  loading (view (run (env := healthy) [])) = false
  ∧ issued (run (env := healthy) [])
      (step (env := healthy) (run (env := healthy) []) (SortLabel_click name))
    = [getOrganizationMembers "acme"
         {| Query.p := 0; Query.q := 10; Query.sb := name; Query.dir := desc |}].
Proof.
  split; [reflexivity|].
  exact (sort_click_refetches (env := healthy) (run (env := healthy) []) name eq_refl).
Defined.

Lemma remove_click_requests_witness :
  let w := run (env := healthy) removeBobOnPageTwo in
  removeRow (view w) = Some bob
  ∧ issued w (step (env := healthy) w RemoveMember_click)
    = [deleteMember "acme" 3;
       getOrganizationMembers "acme"
         {| Query.p := 2; Query.q := 10; Query.sb := name; Query.dir := asc |};
       getOrganizationMembers "acme"
         {| Query.p := 0; Query.q := 10; Query.sb := name; Query.dir := asc |}].
Proof.
  intros w. split; [reflexivity|].
  exact (remove_click_requests (env := healthy) w bob {| message := "ok" |}
           eq_refl eq_refl eq_refl).
Defined.

Lemma invalid_invite_field_errors_witness :
  let w := run (env := healthy) inviteNoUrls in
  let w' := exec (handleInviteSubmit (env := healthy) (view w)) w in
  ¬ validInvite (env := healthy) (inviteData (view w))
  ∧ inviteErrors (view w') !! "firstname"
    = Some "String must contain at least 1 character(s)"
  ∧ inviteErrors (view w') !! "email" = Some "Invalid email"
  ∧ inviteErrors (view w') !! "roles" = None
  ∧ calls w' = calls w.
Proof.
  intros w w'.
  assert (Hroles : Invite.roles (inviteData (view w)) ⊆ invitableRoles)
    by (intros r Hr; inversion Hr).
  assert (Hinvalid : ¬ validInvite (env := healthy) (inviteData (view w)))
    by (intros [Hname _]; apply Hname; reflexivity).
  split; [exact Hinvalid|].
  destruct (invalid_invite_field_errors (env := healthy) (view w) w Hroles Hinvalid)
    as (Hfirst & _ & Hemail & _ & Hother & Hcalls & _).
  split; [exact Hfirst|]. split; [exact Hemail|]. split; [|exact Hcalls].
  apply Hother. vm_compute. intros Hin.
  repeat (inversion Hin as [|? ? ? Hin']; subst; clear Hin; rename Hin' into Hin).
Defined.

Lemma invites_grant_listed_roles_only_witness :
  let dto :=
    {| Invite.firstname := "Dana"; Invite.lastname := "Doe";
       Invite.email := "dana@acme.io"; Invite.allowedAllUrls := true;
       Invite.allowedUrls := [11]; Invite.roles := [ORGANIZATION_MEMBER] |} in
  inviteMember "acme" dto ∈ calls (run (env := healthy) inviteAfterUnticking)
  ∧ (ORGANIZATION_OWNER ∉ Invite.roles dto)
  ∧ (ORGANIZATION_ADMIN ∉ Invite.roles dto).
Proof.
  intros dto.
  assert (Hc : inviteMember "acme" dto
               ∈ calls (run (env := healthy) inviteAfterUnticking))
    by (vm_compute; do 2 right; left).
  split; [exact Hc|].
  destruct (invites_grant_listed_roles_only (env := healthy) _ _ _ Hc)
    as (_ & _ & _ & Howner & Hadmin).
  split; [exact Howner|exact Hadmin].
Defined.

Lemma openUrlsDialog_opens_witness :
  let w := run (env := healthy) [] in
  let w' := exec (openUrlsDialog (env := healthy) (view w) bob) w in
  canManageUrls (env := healthy) = true
  ∧ editable (env := healthy) bob
  ∧ urlsOpen (view w') = true
  ∧ urlsMember (view w') = Some bob
  ∧ selectedUrls (view w') = [url11].
Proof.
  intros w w'.
  assert (Hedit : editable (env := healthy) bob)
    by (apply (editable_intro (env := healthy)); reflexivity).
  split; [reflexivity|]. split; [exact Hedit|].
  destruct (openUrlsDialog_opens (env := healthy) (view w) bob w eq_refl Hedit)
    as (_ & _ & Hopen & _ & Hmember & _ & _ & Hsel).
  split; [exact Hopen|]. split; [exact Hmember|].
  etransitivity; [exact Hsel|]. vm_compute. reflexivity.
Defined.


Lemma handleInviteSubmit_outcomes_witness :
  (let w := run (env := healthy) inviteDana in
   let w' := exec (handleInviteSubmit (env := healthy) (view w)) w in
   validInvite (env := healthy) (inviteData (view w))
   ∧ inviteOpen (view w') = false ∧ inviteData (view w') = emptyInvite)
  ∧ (let env := failing ENTITY_ALREADY_EXISTS in
     let w := run (env := env) inviteDana in
     view (exec (handleInviteSubmit (env := env) (view w)) w) = view w).
Proof.
  assert (Hvalid : ∀ env : Environment,
            isEmail "dana@acme.io" = true →
            inviteData (view (run (env := env) inviteDana))
            = {| Invite.firstname := "Dana"; Invite.lastname := "Doe";
                 Invite.email := "dana@acme.io"; Invite.allowedAllUrls := true;
                 Invite.allowedUrls := []; Invite.roles := [] |} →
            validInvite (env := env) (inviteData (view (run (env := env) inviteDana)))).
  { intros env Hemail ->. split; [done|]. split; [done|]. split; [exact Hemail|].
    split; [by intros r Hr%elem_of_nil | by left]. }
  split.
  - intros w w'.
    pose proof (Hvalid healthy eq_refl eq_refl) as Hv. fold w in Hv.
    split; [exact Hv|].
    destruct (handleInviteSubmit_outcomes (env := healthy) (view w) w Hv)
      as (_ & Hopen & Hdata & _).
    split; [exact Hopen|exact Hdata].
  - intros env w.
    pose proof (Hvalid env eq_refl eq_refl) as Hv. fold w in Hv.
    exact (proj2 (handleInviteSubmit_outcomes (env := env) (view w) w Hv)).
Defined.
